(** * dcos-metrics: the input assigner factory, the port strategies and the
      collector configuration

    Part I embeds the sources: [stats::InputAssignerFactory::get]
    (src/slave/input_assigner_factory.cpp), first as the sequential function
    it is, then as a small-step machine in which several threads run it
    against one mutex; and [getNewConfig] with its helpers (src/config.go).
    The Range Strategy, whose implementation is not among the sources, is
    modelled from its specification.  Part II holds the theorems. *)

From Stdlib Require Import ZArith Lia.
From stdpp Require Import gmap strings list fin_maps sorting.

(** ** 1. The [params] name space used by the factory *)

Module params.

(** [mesos::Parameters] is a protobuf message holding a repeated field of
    key/value pairs; order and duplicates are kept. *)
Abbreviation Parameters := (list (string * string)).

Module port_mode.
Inductive Value : Set := SINGLE | EPHEMERAL | RANGE | UNKNOWN.
End port_mode.

#[export] Instance port_mode_eq_dec : EqDecision port_mode.Value.
Proof. solve_decision. Defined.

(** The header that declares the key name, its default and the parser
    [to_port_mode] is not among the sources: the three are taken as
    parameters of the development. *)
Class Lib : Type := {
  LISTEN_PORT_MODE : string;
  LISTEN_PORT_MODE_DEFAULT : string;
  to_port_mode : string → port_mode.Value
}.

(** Modelled from the spec: [params::get_str(parameters, key, default)],
    whose body is missing.  The interface section says that keys the reader
    does not ask for are ignored and that a missing key falls back to the
    default handed in; the first entry carrying the key is taken. *)
Fixpoint get_str (parameters : Parameters) (key default_value : string) : string :=
  match parameters with
  | [] => default_value
  | (k, v) :: rest =>
      if decide (k = key) then v else get_str rest key default_value
  end.

(** An instance used to run the model on concrete inputs. *)
Definition sample_to_port_mode (s : string) : port_mode.Value :=
  if decide (s = "single"%string) then port_mode.SINGLE
  else if decide (s = "ephemeral"%string) then port_mode.EPHEMERAL
  else if decide (s = "range"%string) then port_mode.RANGE
  else port_mode.UNKNOWN.

Definition sample_lib : Lib := {|
  LISTEN_PORT_MODE := "listen_port_mode";
  LISTEN_PORT_MODE_DEFAULT := "ephemeral";
  to_port_mode := sample_to_port_mode
|}.

End params.

(** ** 2. The factory, sequentially *)

Module stats.
Import params.

(** Objects live in a heap that only grows; an address is an index into it.
    A [std::shared_ptr] is null or an address. *)
Definition addr : Set := nat.
Definition shared_ptr : Set := option addr.

(** The three strategy classes are constructed from the parameters; their
    constructors are outside the translated file, so an implementation object
    is its class together with the argument it was built from.  An
    [InputAssigner] holds the raw pointer to its implementation. *)
Inductive Object : Type :=
| SinglePortAssignerImpl (parameters : Parameters)
| EphemeralPortAssignerImpl (parameters : Parameters)
| PortRangeAssignerImpl (parameters : Parameters)
| InputAssigner (impl : addr).

Inductive LogLine : Type :=
| INFO_reusing (parameters : Parameters)
| INFO_creating (parameters : Parameters)
| FATAL_unknown (key port_mode_str : string).

(** The anonymous name space of the file: the global handle; the heap and the
    log are the part of the process the function touches.  The mutex is
    added in the concurrent machine below.  [resets] is a ghost counter of the
    assignments made to the global handle; no code reads it. *)
Record Process : Type := mkProcess {
  heap : list Object;
  global_assigner : shared_ptr;
  glog : list LogLine;
  resets : nat
}.

Definition LOG (l : LogLine) (p : Process) : Process :=
  mkProcess (heap p) (global_assigner p) (glog p ++ [l]) (resets p).

(** [new T(...)]: the object is placed at the next free address. *)
Definition new (o : Object) (p : Process) : addr * Process :=
  (length (heap p),
   mkProcess (heap p ++ [o]) (global_assigner p) (glog p) (resets p)).

(** [global_assigner.reset(q)]. *)
Definition reset (q : addr) (p : Process) : Process :=
  mkProcess (heap p) (Some q) (glog p) (S (resets p)).

(** A call either returns a shared pointer or dies in [LOG(FATAL)], which
    aborts the process. *)
Inductive Outcome : Type :=
| Returned (r : shared_ptr) (p : Process)
| Aborted (p : Process).

Definition is_impl (o : Object) : bool :=
  match o with InputAssigner _ => false | _ => true end.

(** The mode a strategy object implements. *)
Definition strategy_class (o : Object) : option port_mode.Value :=
  match o with
  | SinglePortAssignerImpl _ => Some port_mode.SINGLE
  | EphemeralPortAssignerImpl _ => Some port_mode.EPHEMERAL
  | PortRangeAssignerImpl _ => Some port_mode.RANGE
  | InputAssigner _ => None
  end.

Definition is_assigner (o : Object) : bool :=
  match o with InputAssigner _ => true | _ => false end.

Definition constructed_impls (p : Process) : nat :=
  length (filter (λ o, is_impl o = true) (heap p)).

Definition constructed_assigners (p : Process) : nat :=
  length (filter (λ o, is_assigner o = true) (heap p)).

Module InputAssignerFactory.
Section get.
Context `{!Lib}.

(** Lines 29-43: the switch over the parsed mode. *)
Definition switch_port_mode (port_mode : port_mode.Value)
    (port_mode_str : string) (parameters : Parameters) (p : Process)
  : (addr * Process) + Process :=
  match port_mode with
  | port_mode.SINGLE => inl (new (SinglePortAssignerImpl parameters) p)
  | port_mode.EPHEMERAL => inl (new (EphemeralPortAssignerImpl parameters) p)
  | port_mode.RANGE => inl (new (PortRangeAssignerImpl parameters) p)
  | port_mode.UNKNOWN =>
      inr (LOG (FATAL_unknown LISTEN_PORT_MODE port_mode_str) p)
  end.

(** Line 45. *)
Definition store (impl : addr) (p : Process) : Process :=
  let '(a, p) := new (InputAssigner impl) p in reset a p.

(** [get].  The [unique_lock] of line 16 is held from entry to either
    return; a call running alone never waits for it, so it leaves no trace
    here and is modelled in the machine of the next part. *)
Definition get (parameters : Parameters) (p : Process) : Outcome :=
  match global_assigner p with
  | Some _ =>
      let p := LOG (INFO_reusing parameters) p in
      Returned (global_assigner p) p
  | None =>
      let p := LOG (INFO_creating parameters) p in
      let port_mode_str :=
        get_str parameters LISTEN_PORT_MODE LISTEN_PORT_MODE_DEFAULT in
      let port_mode := to_port_mode port_mode_str in
      match switch_port_mode port_mode port_mode_str parameters p with
      | inl (impl, p) =>
          let p := store impl p in
          Returned (global_assigner p) p
      | inr p => Aborted p
      end
  end.

(** A caller making one call after the other; a fatal call ends the process,
    so the calls after it never happen.  The outcome of every call made is
    collected, in order. *)
Fixpoint get_all (calls : list Parameters) (p : Process) : list Outcome :=
  match calls with
  | [] => []
  | parameters :: rest =>
      match get parameters p with
      | Returned r p' => Returned r p' :: get_all rest p'
      | Aborted p' => [Aborted p']
      end
  end.

(** The strategy the specification pairs with each recognised mode. *)
Definition matching_strategy (m : port_mode.Value) (parameters : Parameters)
  : option Object :=
  match m with
  | port_mode.SINGLE => Some (SinglePortAssignerImpl parameters)
  | port_mode.EPHEMERAL => Some (EphemeralPortAssignerImpl parameters)
  | port_mode.RANGE => Some (PortRangeAssignerImpl parameters)
  | port_mode.UNKNOWN => None
  end.

(** The mode the factory reads out of a configuration. *)
Definition configured_mode (parameters : Parameters) : port_mode.Value :=
  to_port_mode (get_str parameters LISTEN_PORT_MODE LISTEN_PORT_MODE_DEFAULT).

(** The entries of a configuration that carry the mode key; every other
    entry is a key the factory does not know. *)
Definition mode_entries (parameters : Parameters) : Parameters :=
  filter (λ kv, kv.1 = LISTEN_PORT_MODE) parameters.

(** The strategy object a call has put on the heap of [p], if any: the
    first object allocated by the call. *)
Definition built_strategy (p : Process) (o : Outcome) : option Object :=
  match o with
  | Returned _ p' => heap p' !! length (heap p)
  | Aborted _ => None
  end.

End get.
End InputAssignerFactory.

(** The process before the first call. *)
Definition start : Process := mkProcess [] None [] 0.

Definition process_of (o : Outcome) : Process :=
  match o with Returned _ p => p | Aborted p => p end.

(** The handle, when set, points at an InputAssigner whose implementation
    pointer points at a strategy object. *)
Definition handle_wellformed (p : Process) : Prop :=
  ∀ a, global_assigner p = Some a →
       ∃ impl o, heap p !! a = Some (InputAssigner impl) ∧
                 heap p !! impl = Some o ∧ is_impl o = true.

(** The parameters an INFO line prints. *)
Definition logged_parameters (l : LogLine) : option (list (string * string)) :=
  match l with
  | INFO_reusing parameters | INFO_creating parameters => Some parameters
  | FATAL_unknown _ _ => None
  end.

(** A process in which an ephemeral strategy has been stored, for running
    the model on concrete inputs. *)
Definition stored_sample : Process :=
  mkProcess [EphemeralPortAssignerImpl []; InputAssigner 0%nat]
    (Some 1%nat) [INFO_creating []] 1.

End stats.

(** ** 3. The factory under several threads *)

Module concurrent.
Import params stats stats.InputAssignerFactory.

(** Where a thread stands inside [get].  [AtLock] is line 16, before the
    [unique_lock] is constructed; [AtCheck] is the test of line 17;
    [AtParse] is lines 23-27; [AtSwitch] lines 29-43; [AtStore] line 45;
    [AtReturn] is either [return]: the handle is copied into the result and
    then the lock's destructor releases the mutex; [Done] is back in the
    caller. *)
Inductive pc : Type :=
| AtLock (parameters : Parameters)
| AtCheck (parameters : Parameters)
| AtParse (parameters : Parameters)
| AtSwitch (parameters : Parameters) (port_mode_str : string)
    (port_mode : port_mode.Value)
| AtStore (impl : addr)
| AtReturn
| Done (r : shared_ptr).

Record Machine : Type := mkMachine {
  process : Process;
  global_assigner_mutex : option nat;
  threads : list pc;
  aborted : bool
}.

Definition in_critical (c : pc) : bool :=
  match c with AtLock _ | Done _ => false | _ => true end.

Definition is_done (c : pc) : bool :=
  match c with Done _ => true | _ => false end.

Section step.
Context `{!Lib}.

(** One step of thread [t].  A thread that waits for the mutex, has
    returned, or does not exist leaves the machine as it is; so does every
    thread once the process has aborted. *)
Definition step (t : nat) (m : Machine) : Machine :=
  if aborted m then m else
  match threads m !! t with
  | None => m
  | Some (AtLock parameters) =>
      match global_assigner_mutex m with
      | None =>
          mkMachine (process m) (Some t)
            (<[t := AtCheck parameters]> (threads m)) false
      | Some _ => m
      end
  | Some (AtCheck parameters) =>
      match global_assigner (process m) with
      | Some _ =>
          mkMachine (LOG (INFO_reusing parameters) (process m))
            (global_assigner_mutex m) (<[t := AtReturn]> (threads m)) false
      | None =>
          mkMachine (process m) (global_assigner_mutex m)
            (<[t := AtParse parameters]> (threads m)) false
      end
  | Some (AtParse parameters) =>
      let port_mode_str :=
        get_str parameters LISTEN_PORT_MODE LISTEN_PORT_MODE_DEFAULT in
      mkMachine (LOG (INFO_creating parameters) (process m))
        (global_assigner_mutex m)
        (<[t := AtSwitch parameters port_mode_str
                  (to_port_mode port_mode_str)]> (threads m)) false
  | Some (AtSwitch parameters port_mode_str port_mode) =>
      match switch_port_mode port_mode port_mode_str parameters (process m) with
      | inl (impl, p) =>
          mkMachine p (global_assigner_mutex m)
            (<[t := AtStore impl]> (threads m)) false
      | inr p => mkMachine p (global_assigner_mutex m) (threads m) true
      end
  | Some (AtStore impl) =>
      mkMachine (store impl (process m)) (global_assigner_mutex m)
        (<[t := AtReturn]> (threads m)) false
  | Some AtReturn =>
      mkMachine (process m) None
        (<[t := Done (global_assigner (process m))]> (threads m)) false
  | Some (Done _) => m
  end.

(** A schedule names the thread that moves next; every interleaving is the
    run of some schedule. *)
Fixpoint run (schedule : list nat) (m : Machine) : Machine :=
  match schedule with
  | [] => m
  | t :: rest => run rest (step t m)
  end.

End step.

(** Every thread is about to call [get]; nothing has been built. *)
Definition init (calls : list Parameters) : Machine :=
  mkMachine start None (AtLock <$> calls) false.

(** How far the construction has come. *)
Inductive Stage : Set := NothingBuilt | ImplBuilt | Stored.

#[export] Instance Stage_eq_dec : EqDecision Stage.
Proof. solve_decision. Defined.

Definition stage_ok (s : Stage) (m : Machine) : Prop :=
  match s with
  | NothingBuilt =>
      heap (process m) = [] ∧ global_assigner (process m) = None ∧
      resets (process m) = 0%nat
  | ImplBuilt =>
      (∃ o, is_impl o = true ∧ heap (process m) = [o]) ∧
      global_assigner (process m) = None ∧ resets (process m) = 0%nat ∧
      ∃ t, global_assigner_mutex m = Some t ∧
           threads m !! t = Some (AtStore 0%nat)
  | Stored =>
      (∃ o, is_impl o = true ∧
            heap (process m) = [o; InputAssigner 0%nat]) ∧
      global_assigner (process m) = Some 1%nat ∧ resets (process m) = 1%nat
  end.

Definition pc_allowed (s : Stage) (c : pc) : Prop :=
  match c with
  | AtLock _ => True
  | AtCheck _ => s = NothingBuilt ∨ s = Stored
  | AtParse _ | AtSwitch _ _ _ => s = NothingBuilt
  | AtStore impl => s = ImplBuilt ∧ impl = 0%nat
  | AtReturn => s = Stored
  | Done r => s = Stored ∧ r = Some 1%nat
  end.

(** The steps a thread still has before it is back in its caller, and the
    work left in the whole machine. *)
Definition steps_left (c : pc) : nat :=
  match c with
  | AtLock _ => 6
  | AtCheck _ => 5
  | AtParse _ => 4
  | AtSwitch _ _ _ => 3
  | AtStore _ => 2
  | AtReturn => 1
  | Done _ => 0
  end.

Definition work_left (m : Machine) : nat :=
  sum_list (steps_left <$> threads m).

(** The parameters a thread still carries are those of its call, and the
    mode it switches on is the one parsed from them. *)
Definition carries `{!Lib} (calls : list Parameters) (t : nat) (c : pc) : Prop :=
  match c with
  | AtLock ps | AtCheck ps | AtParse ps => calls !! t = Some ps
  | AtSwitch ps str mode =>
      calls !! t = Some ps ∧ mode = configured_mode ps
  | _ => True
  end.

(** Whatever has been allocated first on the heap is the strategy that the
    mode of one of the callers asks for, built from that caller's
    parameters. *)
Definition strategy_of_a_caller `{!Lib} (calls : list Parameters)
    (p : Process) : Prop :=
  ∀ o, heap p !! 0%nat = Some o →
       ∃ t ps, calls !! t = Some ps ∧
               matching_strategy (configured_mode ps) ps = Some o.

(** The schedule that lets each of [n] threads in turn run its whole call
    (six steps are always enough) before the next one starts. *)
Definition one_after_another (n : nat) : list nat :=
  concat ((λ t, replicate 6 t) <$> seq 0 n).

Record Inv (m : Machine) : Prop := mkInv {
  inv_holder : ∀ t c, threads m !! t = Some c → in_critical c = true →
                      global_assigner_mutex m = Some t;
  inv_held : ∀ t, global_assigner_mutex m = Some t →
                  ∃ c, threads m !! t = Some c ∧ in_critical c = true;
  inv_stage : ∃ s, stage_ok s m ∧
                   ∀ t c, threads m !! t = Some c → pc_allowed s c
}.

End concurrent.

(** ** 4. The Range Strategy *)

Module RangeStrategy.
Local Open Scope Z_scope.

Abbreviation Port := Z.
Abbreviation TaskId := string.

(** One named port requirement of a task, with its optional fixed-port
    hint. *)
Record EndpointRequirement : Type := mkRequirement {
  endpoint_name : string;
  fixed_port_hint : option Port
}.

(** The ports of an offer: a sequence of closed intervals. *)
Abbreviation ResourceOffer := (list (Port * Port)).

(** Endpoint name to port, one pair per requirement. *)
Abbreviation PortAssignment := (list (string * Port)).

Inductive AssignmentError : Set := PortUnavailable | DuplicateAssignment.

(** The table of the strategy: the configured interval, the free set and
    the set reserved for each task. *)
Record ReservationTable : Type := mkTable {
  low : Port;
  high : Port;
  free : gset Port;
  reserved : gmap TaskId (gset Port)
}.

Definition range_ports (lo hi : Port) : list Port := seqZ lo (hi - lo + 1).

(** Modelled from the spec: construction of the Range Strategy, whose
    source is missing.  "A fixed closed interval [low, high] supplied at
    construction; the free set is initialized to the full interval." *)
Definition init (lo hi : Port) : ReservationTable :=
  mkTable lo hi (list_to_set (range_ports lo hi)) ∅.

(** A port is in the offer when one of its intervals holds it; an empty or
    inverted interval holds none. *)
Definition in_offer (offer : ResourceOffer) (p : Port) : bool :=
  existsb (λ i, (i.1 <=? p) && (p <=? i.2)) offer.

(** The free ports that the offer also has, lowest first. *)
Definition candidates (offer : ResourceOffer) (rt : ReservationTable)
  : list Port :=
  filter (λ p, in_offer offer p = true) (merge_sort Z.le (elements (free rt))).

(** Modelled from the spec: [assign] of the Range Strategy, whose source is
    missing.  A task that already holds a reservation is refused
    (DuplicateAssignment); otherwise as many ports as there are requirements
    are taken, lowest first, out of the free ports present in the offer; if
    there are too few the call fails (PortUnavailable) and reserves nothing;
    on success the chosen ports move from the free set to the task's
    entry. *)
Definition assign (task : TaskId) (requirements : list EndpointRequirement)
    (offer : ResourceOffer) (rt : ReservationTable)
  : (PortAssignment + AssignmentError) * ReservationTable :=
  match reserved rt !! task with
  | Some _ => (inr DuplicateAssignment, rt)
  | None =>
      let available := candidates offer rt in
      if decide (length available < length requirements)%nat
      then (inr PortUnavailable, rt)
      else
        let chosen := take (length requirements) available in
        (inl (zip (endpoint_name <$> requirements) chosen),
         mkTable (low rt) (high rt)
           (free rt ∖ list_to_set chosen)
           (<[task := list_to_set chosen]> (reserved rt)))
  end.

(** Modelled from the spec: [release] of the Range Strategy, whose source
    is missing.  The ports of the task go back to the free set and its entry
    is removed; an unknown task changes nothing. *)
Definition release (task : TaskId) (rt : ReservationTable) : ReservationTable :=
  match reserved rt !! task with
  | Some ports =>
      mkTable (low rt) (high rt) (free rt ∪ ports) (delete task (reserved rt))
  | None => rt
  end.

Inductive Op : Type :=
| Assign (task : TaskId) (requirements : list EndpointRequirement)
    (offer : ResourceOffer)
| Release (task : TaskId).

Definition apply (op : Op) (rt : ReservationTable) : ReservationTable :=
  match op with
  | Assign task requirements offer => (assign task requirements offer rt).2
  | Release task => release task rt
  end.

Fixpoint run (ops : list Op) (rt : ReservationTable) : ReservationTable :=
  match ops with
  | [] => rt
  | op :: rest => run rest (apply op rt)
  end.

(** All the ports reserved, for whatever task. *)
Definition reserved_ports (rt : ReservationTable) : gset Port :=
  ⋃ (map_to_list (reserved rt)).*2.

(** The partition, port by port. *)
Record partitioned (rt : ReservationTable) : Prop := mkPartitioned {
  free_not_reserved :
    ∀ p task ports, p ∈ free rt → reserved rt !! task = Some ports → p ∉ ports;
  tasks_disjoint :
    ∀ t1 t2 s1 s2, t1 ≠ t2 → reserved rt !! t1 = Some s1 →
                   reserved rt !! t2 = Some s2 → s1 ## s2;
  range_covered :
    ∀ p, low rt ≤ p ≤ high rt ↔
         (p ∈ free rt ∨ ∃ task ports, reserved rt !! task = Some ports ∧ p ∈ ports)
}.

End RangeStrategy.

(** ** 5. The collector configuration (src/config.go) *)

Module dcos.
(** The node fields [getNodeInfo] writes. *)
Record NodeInfo : Set := mkNodeInfo {
  IPAddress : string;
  MesosID : string;
  ClusterID : string
}.
End dcos.

(** The two collector structs and the producer configuration are declared
    in packages outside the sources; they are given the fields that
    config.go reads or writes.  A [*http.Client] is the address of a client
    object. *)
Module node.
Record NodeCollector : Set := mkNodeCollector {
  PollPeriod : Z;
  NodeInfo : dcos.NodeInfo
}.
End node.

Module mesos_agent.
Record MesosAgentCollector : Set := mkMesosAgentCollector {
  PollPeriod : Z;
  Port : Z;
  NodeInfo : dcos.NodeInfo;
  HTTPClient : option nat
}.
End mesos_agent.

Module httpProducer.
Record Config : Set := mkConfig { Port : Z }.
End httpProducer.

Module config.

(** A Go [error] is nil ([None]) or carries its message. *)
Abbreviation error := (option string).

(** [nil] or the address of an object. *)
Abbreviation pointer := (option nat).

(** A [net.IP] is a slice of bytes. *)
Abbreviation IP := (list Z).

Record CollectorConfig : Set := mkCollectorConfig {
  HTTPProfiler : bool;
  Node : option node.NodeCollector;
  MesosAgent : option mesos_agent.MesosAgentCollector
}.

Record ProducersConfig : Set := mkProducersConfig {
  HTTPProducerConfig : httpProducer.Config
}.

Record Config : Set := mkConfig {
  Collector : CollectorConfig;
  Producers : ProducersConfig;
  IAMConfigPath : string;
  CACertificatePath : string;
  VersionFlag : bool;
  MesosID : string;
  IPAddress : string;
  ClusterID : string;
  DCOSRole : string;
  ConfigPath : string;
  LogLevel : string
}.

(** What a YAML document does to a [Config] when it is unmarshalled into
    it.  A scalar entry, when present, replaces the field; the fields
    without a tag answer to their lower-cased name.  The two nested mappings
    are kept as the update they perform (the identity when the key is
    absent), which may also set a collector pointer to nil. *)
Record YamlDoc : Type := mkYamlDoc {
  yaml_collector : CollectorConfig → CollectorConfig;
  yaml_producers : ProducersConfig → ProducersConfig;
  yaml_iam_config_path : option string;
  yaml_ca_certificate_path : option string;
  yaml_versionflag : option bool;
  yaml_mesosid : option string;
  yaml_ipaddress : option string;
  yaml_clusterid : option string;
  yaml_dcosrole : option string;
  yaml_configpath : option string;
  yaml_loglevel : option string
}.

(** One flag set by the command line, as [FlagSet.Parse] hands it to the
    registered variable. *)
Inductive FlagSetting : Set :=
| SetString (name value : string)
| SetBool (name : string) (value : bool).

(** How [FlagSet.Parse] ends.  Under [flag.ExitOnError] a malformed command
    line ends the process. *)
Inductive ParseStatus : Set :=
| ParseOk
| ParseError (message : string)
| ParseExit (code : Z).

(** The packages config.go calls into and the world they talk to: the file
    system, the network, the command-line and YAML parsers.  A call may
    change the world; a Go function with two results returns the pair. *)
Class World : Type := {
  W : Type;
  NewMetricsClient : string → string → W → (pointer * error) * W;
  NewNodeInfo : pointer → string → W → (pointer * error) * W;
  DetectIP : nat → W → (IP * error) * W;
  IP_String : IP → string;
  NodeInfo_MesosID : nat → W → (string * error) * W;
  NodeInfo_ClusterID : nat → W → (string * error) * W;
  ReadFile : string → W → (list Z * error) * W;
  Unmarshal : list Z → YamlDoc * error;
  Parse : list string → list FlagSetting * ParseStatus;
  RoleMaster : string
}.

Inductive LogEntry : Set :=
| log_Debug (message : string)
| log_Errorf (message : string)
| log_Error (e : string)
| fmt_Println (message : string).

Section program.
Context `{!World}.

Record St : Type := mkSt { world : W; journal : list LogEntry }.

(** A Go call returns, panics (a nil dereference) or ends the process. *)
Inductive Res (A : Type) : Type :=
| Ret (a : A) (st : St)
| Panicked (st : St)
| Exited (code : Z) (st : St).
Global Arguments Ret {A} a st.
Global Arguments Panicked {A} st.
Global Arguments Exited {A} code st.

Definition M (A : Type) : Type := St → Res A.

Definition ret {A} (a : A) : M A := λ st, Ret a st.

Definition bind {A B} (m : M A) (k : A → M B) : M B :=
  λ st, match m st with
        | Ret a st' => k a st'
        | Panicked st' => Panicked st'
        | Exited code st' => Exited code st'
        end.

Definition call {A} (f : W → A * W) : M A :=
  λ st, let '(a, w) := f (world st) in Ret a (mkSt w (journal st)).

Definition say (l : LogEntry) : M unit :=
  λ st, Ret tt (mkSt (world st) (journal st ++ [l])).

Definition panic {A} : M A := λ st, Panicked st.

Definition os_Exit {A} (code : Z) : M A := λ st, Exited code st.

#[export] Instance M_ret : MRet M := @ret.
#[export] Instance M_bind : MBind M := λ A B k m, bind m k.

(** Field updates through the collector pointers; writing through a nil
    pointer panics. *)
Definition with_MesosAgent
    (f : mesos_agent.MesosAgentCollector → mesos_agent.MesosAgentCollector)
    (c : Config) : M Config :=
  match MesosAgent (Collector c) with
  | Some a =>
      ret (mkConfig
             (mkCollectorConfig (HTTPProfiler (Collector c))
                (Node (Collector c)) (Some (f a)))
             (Producers c) (IAMConfigPath c) (CACertificatePath c)
             (VersionFlag c) (MesosID c) (IPAddress c) (ClusterID c)
             (DCOSRole c) (ConfigPath c) (LogLevel c))
  | None => panic
  end.

Definition with_Node (f : node.NodeCollector → node.NodeCollector)
    (c : Config) : M Config :=
  match Node (Collector c) with
  | Some n =>
      ret (mkConfig
             (mkCollectorConfig (HTTPProfiler (Collector c))
                (Some (f n)) (MesosAgent (Collector c)))
             (Producers c) (IAMConfigPath c) (CACertificatePath c)
             (VersionFlag c) (MesosID c) (IPAddress c) (ClusterID c)
             (DCOSRole c) (ConfigPath c) (LogLevel c))
  | None => panic
  end.

Definition agent_IPAddress (ip : string) (a : mesos_agent.MesosAgentCollector) :=
  mesos_agent.mkMesosAgentCollector (mesos_agent.PollPeriod a)
    (mesos_agent.Port a)
    (dcos.mkNodeInfo ip (dcos.MesosID (mesos_agent.NodeInfo a))
       (dcos.ClusterID (mesos_agent.NodeInfo a)))
    (mesos_agent.HTTPClient a).

Definition agent_MesosID (mid : string) (a : mesos_agent.MesosAgentCollector) :=
  mesos_agent.mkMesosAgentCollector (mesos_agent.PollPeriod a)
    (mesos_agent.Port a)
    (dcos.mkNodeInfo (dcos.IPAddress (mesos_agent.NodeInfo a)) mid
       (dcos.ClusterID (mesos_agent.NodeInfo a)))
    (mesos_agent.HTTPClient a).

Definition agent_HTTPClient (client : pointer)
    (a : mesos_agent.MesosAgentCollector) :=
  mesos_agent.mkMesosAgentCollector (mesos_agent.PollPeriod a)
    (mesos_agent.Port a) (mesos_agent.NodeInfo a) client.

Definition node_IPAddress (ip : string) (n : node.NodeCollector) :=
  node.mkNodeCollector (node.PollPeriod n)
    (dcos.mkNodeInfo ip (dcos.MesosID (node.NodeInfo n))
       (dcos.ClusterID (node.NodeInfo n))).

Definition node_MesosID (mid : string) (n : node.NodeCollector) :=
  node.mkNodeCollector (node.PollPeriod n)
    (dcos.mkNodeInfo (dcos.IPAddress (node.NodeInfo n)) mid
       (dcos.ClusterID (node.NodeInfo n))).

Definition node_ClusterID (cid : string) (n : node.NodeCollector) :=
  node.mkNodeCollector (node.PollPeriod n)
    (dcos.mkNodeInfo (dcos.IPAddress (node.NodeInfo n))
       (dcos.MesosID (node.NodeInfo n)) cid).

(** A method call through an interface value; on nil it panics. *)
Definition receiver (nodeInfo : pointer) : M nat :=
  match nodeInfo with Some h => ret h | None => panic end.

Definition log_if_error (err : error) : M unit :=
  match err with Some e => say (log_Error e) | None => ret tt end.

(** The binding of flag names to fields made by [setFlags]: where a value
    parsed for a flag lands. *)
Definition setFlags (s : FlagSetting) (c : Config) : Config :=
  match s with
  | SetString name value =>
      if decide (name = "config"%string) then
        mkConfig (Collector c) (Producers c) (IAMConfigPath c)
          (CACertificatePath c) (VersionFlag c) (MesosID c) (IPAddress c)
          (ClusterID c) (DCOSRole c) value (LogLevel c)
      else if decide (name = "loglevel"%string) then
        mkConfig (Collector c) (Producers c) (IAMConfigPath c)
          (CACertificatePath c) (VersionFlag c) (MesosID c) (IPAddress c)
          (ClusterID c) (DCOSRole c) (ConfigPath c) value
      else if decide (name = "role"%string) then
        mkConfig (Collector c) (Producers c) (IAMConfigPath c)
          (CACertificatePath c) (VersionFlag c) (MesosID c) (IPAddress c)
          (ClusterID c) value (ConfigPath c) (LogLevel c)
      else c
  | SetBool name value =>
      if decide (name = "version"%string) then
        mkConfig (Collector c) (Producers c) (IAMConfigPath c)
          (CACertificatePath c) value (MesosID c) (IPAddress c)
          (ClusterID c) (DCOSRole c) (ConfigPath c) (LogLevel c)
      else c
  end.

(** [yaml.Unmarshal(fileByte, &c)]: the entries of the document overwrite
    the fields they name. *)
Definition unmarshal_into (d : YamlDoc) (c : Config) : Config :=
  mkConfig (yaml_collector d (Collector c)) (yaml_producers d (Producers c))
    (default (IAMConfigPath c) (yaml_iam_config_path d))
    (default (CACertificatePath c) (yaml_ca_certificate_path d))
    (default (VersionFlag c) (yaml_versionflag d))
    (default (MesosID c) (yaml_mesosid d))
    (default (IPAddress c) (yaml_ipaddress d))
    (default (ClusterID c) (yaml_clusterid d))
    (default (DCOSRole c) (yaml_dcosrole d))
    (default (ConfigPath c) (yaml_configpath d))
    (default (LogLevel c) (yaml_loglevel d)).

Definition loadConfig (c : Config) : M (Config * error) :=
  '(fileByte, err) ← call (ReadFile (ConfigPath c));
  match err with
  | Some e => ret (c, Some e)
  | None =>
      let '(doc, err) := Unmarshal fileByte in
      let c := unmarshal_into doc c in
      match err with
      | Some e => ret (c, Some e)
      | None => ret (c, None)
      end
  end.

Definition stateURL (c : Config) : string :=
  if (0 <? String.length (IAMConfigPath c))%nat
  then "https://leader.mesos:5050/state"%string
  else "http://leader.mesos:5050/state"%string.

Definition getNodeInfo (c : Config) : M (Config * error) :=
  say (log_Debug "Getting node info") ;;
  '(client, err) ←
    call (NewMetricsClient (CACertificatePath c) (IAMConfigPath c));
  match err with
  | Some e => ret (c, Some e)
  | None =>
      '(nodeInfo, err) ← call (NewNodeInfo client (stateURL c));
      match err with
      | Some _ => say (log_Errorf "Error getting NodeInfo{}: err")
      | None => ret tt
      end ;;
      h ← receiver nodeInfo;
      '(ip, err) ← call (DetectIP h);
      log_if_error err ;;
      c ← with_MesosAgent (agent_IPAddress (IP_String ip)) c;
      c ← with_Node (node_IPAddress (IP_String ip)) c;
      h ← receiver nodeInfo;
      '(mid, err) ← call (NodeInfo_MesosID h);
      log_if_error err ;;
      c ← with_MesosAgent (agent_MesosID mid) c;
      c ← with_Node (node_MesosID mid) c;
      if decide (DCOSRole c = RoleMaster) then
        h ← receiver nodeInfo;
        '(cid, err) ← call (NodeInfo_ClusterID h);
        c ← with_Node (node_ClusterID cid) c;
        match err with
        | Some e => ret (c, Some e)
        | None => ret (c, None)
        end
      else ret (c, None)
  end.

Definition newConfig : Config :=
  mkConfig
    (mkCollectorConfig true
       (Some (node.mkNodeCollector 15 (dcos.mkNodeInfo "" "" "")))
       (Some (mesos_agent.mkMesosAgentCollector 15 5051
                (dcos.mkNodeInfo "" "" "") None)))
    (mkProducersConfig (httpProducer.mkConfig 8000))
    "" "" false "" "" "" "" "dcos-metrics-config.yaml" "info".

Definition getNewConfig (args : list string) : M (Config * error) :=
  let c := newConfig in
  let '(settings, status) := Parse args in
  let c := foldl (λ c s, setFlags s c) c settings in
  match status with
  | ParseExit code => os_Exit code
  | ParseError e =>
      say (fmt_Println "Errors encountered parsing flags.") ;;
      ret (c, Some e)
  | ParseOk =>
      '(c, err) ← loadConfig c;
      match err with
      | Some e => ret (c, Some e)
      | None =>
          '(c, err) ← getNodeInfo c;
          match err with
          | Some e => ret (c, Some e)
          | None =>
              '(collectorClient, err) ←
                call (NewMetricsClient (CACertificatePath c) (IAMConfigPath c));
              match err with
              | Some e => ret (c, Some e)
              | None =>
                  c ← with_MesosAgent (agent_HTTPClient collectorClient) c;
                  ret (c, None)
              end
          end
      end
  end.

(** The fields a flag is bound to, their values, and the entry of a YAML
    document that names the same field. *)
Inductive FlagField : Set :=
| FieldConfigPath | FieldLogLevel | FieldDCOSRole | FieldVersionFlag.

Inductive FieldValue : Set :=
| StringValue (s : string)
| BoolValue (b : bool).

Definition field (f : FlagField) (c : Config) : FieldValue :=
  match f with
  | FieldConfigPath => StringValue (ConfigPath c)
  | FieldLogLevel => StringValue (LogLevel c)
  | FieldDCOSRole => StringValue (DCOSRole c)
  | FieldVersionFlag => BoolValue (VersionFlag c)
  end.

Definition yaml_entry (f : FlagField) (d : YamlDoc) : option FieldValue :=
  match f with
  | FieldConfigPath => StringValue <$> yaml_configpath d
  | FieldLogLevel => StringValue <$> yaml_loglevel d
  | FieldDCOSRole => StringValue <$> yaml_dcosrole d
  | FieldVersionFlag => BoolValue <$> yaml_versionflag d
  end.

(** The setting [FlagSet.Parse] produces when the flag bound to a field is
    given a value. *)
Definition flag_setting (f : FlagField) (v : FieldValue) : option FlagSetting :=
  match f, v with
  | FieldConfigPath, StringValue s => Some (SetString "config" s)
  | FieldLogLevel, StringValue s => Some (SetString "loglevel" s)
  | FieldDCOSRole, StringValue s => Some (SetString "role" s)
  | FieldVersionFlag, BoolValue b => Some (SetBool "version" b)
  | _, _ => None
  end.

(** The configuration once the flags have been parsed, before the file is
    read. *)
Definition after_flags (settings : list FlagSetting) : Config :=
  foldl (λ c s, setFlags s c) newConfig settings.

(** The configuration [getNodeInfo] leaves behind when nothing is nil: the
    address and the identifier written into both collectors. *)
Definition node_info_written (ip mid : string) (n : node.NodeCollector)
    (a : mesos_agent.MesosAgentCollector) (c : Config) : Config :=
  mkConfig
    (mkCollectorConfig (HTTPProfiler (Collector c))
       (Some (node_MesosID mid (node_IPAddress ip n)))
       (Some (agent_MesosID mid (agent_IPAddress ip a))))
    (Producers c) (IAMConfigPath c) (CACertificatePath c)
    (VersionFlag c) (MesosID c) (IPAddress c) (ClusterID c)
    (DCOSRole c) (ConfigPath c) (LogLevel c).

Definition cluster_id_written (ip mid cid : string) (n : node.NodeCollector)
    (a : mesos_agent.MesosAgentCollector) (c : Config) : Config :=
  mkConfig
    (mkCollectorConfig (HTTPProfiler (Collector c))
       (Some (node_ClusterID cid (node_MesosID mid (node_IPAddress ip n))))
       (Some (agent_MesosID mid (agent_IPAddress ip a))))
    (Producers c) (IAMConfigPath c) (CACertificatePath c)
    (VersionFlag c) (MesosID c) (IPAddress c) (ClusterID c)
    (DCOSRole c) (ConfigPath c) (LogLevel c).

(** The second half of the reading "failures are only logged": with a
    client at hand and a role other than master the call returns nil,
    whatever [NewNodeInfo] and the lookups answered. *)
Definition non_master_returns_nil : Prop :=
  ∀ (c : Config) (st : St) (client : pointer) (w1 : W)
    (n : node.NodeCollector) (a : mesos_agent.MesosAgentCollector),
    NewMetricsClient (CACertificatePath c) (IAMConfigPath c) (world st)
      = ((client, None), w1) →
    Node (Collector c) = Some n → MesosAgent (Collector c) = Some a →
    DCOSRole c ≠ RoleMaster →
    ∃ c' st', getNodeInfo c st = Ret (c', None) st'.

(** The lines the three tolerated failures leave in the log. *)
Definition failure_lines (node_info_err ip_err mesos_id_err : error)
  : list LogEntry :=
  match node_info_err with
  | Some _ => [log_Errorf "Error getting NodeInfo{}: err"]
  | None => []
  end ++
  match ip_err with Some e => [log_Error e] | None => [] end ++
  match mesos_id_err with Some e => [log_Error e] | None => [] end.

End program.

(** Worlds for running the model.  Every lookup answers at once; [handle]
    and [trouble] are what [NewNodeInfo] returns, and when there is trouble
    the address and identifier lookups fail with it as well.  The file
    site.yaml exists and sets the log level to debug.  The command line is
    read the way [FlagSet.Parse] reads it for the four registered flags:
    one or two dashes, the value in the next argument or after an equals
    sign, the boolean flag alone or with [=value]; parsing stops at [--] or
    at the first argument that is not a flag; [-h] and [-help] end the
    process with status 0, a malformed or unknown flag or a missing value
    with status 2. *)
Fixpoint cut_at_equals (s : string) : string * option string :=
  match s with
  | EmptyString => (EmptyString, None)
  | String c rest =>
      if decide (String c EmptyString = "="%string) then (EmptyString, Some rest)
      else let '(name, value) := cut_at_equals rest in (String c name, value)
  end.

Inductive sample_Arg : Set :=
| Positional
| Terminator
| BadSyntax
| Flag (name : string) (value : option string).

(** The argument with its dashes taken off; an equals sign cannot come
    first in the name. *)
Definition sample_named (name : string) : sample_Arg :=
  match name with
  | EmptyString => BadSyntax
  | String c rest =>
      if bool_decide (String c EmptyString ∈ ["-"; "="]%string) then BadSyntax
      else let '(n, v) := cut_at_equals rest in Flag (String c n) v
  end.

Definition sample_classify (s : string) : sample_Arg :=
  match s with
  | String c1 (String c2 rest) =>
      if decide (String c1 EmptyString = "-"%string) then
        if decide (String c2 EmptyString = "-"%string) then
          match rest with
          | EmptyString => Terminator
          | _ => sample_named rest
          end
        else sample_named (String c2 rest)
      else Positional
  | _ => Positional
  end.

Definition sample_ParseBool (s : string) : option bool :=
  if bool_decide (s ∈ ["1"; "t"; "T"; "TRUE"; "true"; "True"]%string)
  then Some true
  else if bool_decide (s ∈ ["0"; "f"; "F"; "FALSE"; "false"; "False"]%string)
  then Some false
  else None.

Definition with_setting (s : FlagSetting)
    (r : list FlagSetting * ParseStatus) : list FlagSetting * ParseStatus :=
  (s :: r.1, r.2).

Fixpoint sample_Parse (args : list string) : list FlagSetting * ParseStatus :=
  match args with
  | [] => ([], ParseOk)
  | s :: rest =>
      match sample_classify s with
      | Positional | Terminator => ([], ParseOk)
      | BadSyntax => ([], ParseExit 2)
      | Flag name value =>
          if bool_decide (name ∈ ["config"; "loglevel"; "role"]%string) then
            match value with
            | Some v => with_setting (SetString name v) (sample_Parse rest)
            | None =>
                match rest with
                | v :: rest' =>
                    with_setting (SetString name v) (sample_Parse rest')
                | [] => ([], ParseExit 2)
                end
            end
          else if decide (name = "version"%string) then
            match value with
            | Some v =>
                match sample_ParseBool v with
                | Some b => with_setting (SetBool name b) (sample_Parse rest)
                | None => ([], ParseExit 2)
                end
            | None => with_setting (SetBool name true) (sample_Parse rest)
            end
          else if bool_decide (name ∈ ["help"; "h"]%string)
          then ([], ParseExit 0)
          else ([], ParseExit 2)
      end
  end.

Definition sample_world (handle : pointer) (trouble : error) : World := {|
  W := unit;
  NewMetricsClient := λ _ _ w, ((Some 1%nat, None), w);
  NewNodeInfo := λ _ _ w, ((handle, trouble), w);
  DetectIP := λ _ w,
    (match trouble with
     | None => ([10; 0; 0; 7]%Z, None)
     | Some e => ([], Some e)
     end, w);
  IP_String := λ ip,
    match ip with [] => "<nil>"%string | _ => "10.0.0.7"%string end;
  NodeInfo_MesosID := λ _ w,
    (match trouble with
     | None => ("agent-S1"%string, None)
     | Some e => (""%string, Some e)
     end, w);
  NodeInfo_ClusterID := λ _ w, (("cluster-1"%string, None), w);
  ReadFile := λ path w,
    (if decide (path = "site.yaml"%string)
     then ([1]%Z, None) else ([], Some "no such file"%string), w);
  Unmarshal := λ _,
    (mkYamlDoc id id None None None None None None None None
       (Some "debug"%string), None);
  Parse := sample_Parse;
  RoleMaster := "master"
|}.

(** A state of such a world, with the lines logged so far. *)
Definition sample_St (handle : pointer) (trouble : error)
    (lines : list LogEntry) : @St (sample_world handle trouble) :=
  @mkSt (sample_world handle trouble) tt lines.

(** The same world with a file that is read but does not decode cleanly:
    the decoder keeps the log level it understood and reports an error. *)
Definition sample_world_bad_yaml : World := {|
  W := unit;
  NewMetricsClient := λ _ _ w, ((Some 1%nat, None), w);
  NewNodeInfo := λ _ _ w, ((Some 2%nat, None), w);
  DetectIP := λ _ w, (([10; 0; 0; 7]%Z, None), w);
  IP_String := λ _, "10.0.0.7"%string;
  NodeInfo_MesosID := λ _ w, (("agent-S1"%string, None), w);
  NodeInfo_ClusterID := λ _ w, (("cluster-1"%string, None), w);
  ReadFile := λ path w,
    (if decide (path = "site.yaml"%string)
     then ([1]%Z, None) else ([], Some "no such file"%string), w);
  Unmarshal := λ _,
    (mkYamlDoc id id None None None None None None None None
       (Some "debug"%string), Some "yaml: unmarshal errors"%string);
  Parse := sample_Parse;
  RoleMaster := "master"
|}.

(** A world in which the node information is built but the address and the
    identifier cannot be found. *)
Definition sample_world_lookups_fail : World := {|
  W := unit;
  NewMetricsClient := λ _ _ w, ((Some 1%nat, None), w);
  NewNodeInfo := λ _ _ w, ((Some 2%nat, None), w);
  DetectIP := λ _ w, (([], Some "no address detected"%string), w);
  IP_String := λ ip,
    match ip with [] => "<nil>"%string | _ => "10.0.0.7"%string end;
  NodeInfo_MesosID := λ _ w,
    ((""%string, Some "state not reachable"%string), w);
  NodeInfo_ClusterID := λ _ w, (("cluster-1"%string, None), w);
  ReadFile := λ path w,
    (if decide (path = "site.yaml"%string)
     then ([1]%Z, None) else ([], Some "no such file"%string), w);
  Unmarshal := λ _,
    (mkYamlDoc id id None None None None None None None None
       (Some "debug"%string), None);
  Parse := sample_Parse;
  RoleMaster := "master"
|}.

(** A configuration whose collector pointers are nil. *)
Definition no_collectors : Config :=
  mkConfig (mkCollectorConfig true None None)
    (mkProducersConfig (httpProducer.mkConfig 8000))
    "" "" false "" "" "" "" "dcos-metrics-config.yaml" "info".

End config.

(** * Part II: theorems *)

(** ** The factory, one call at a time *)

Section factory_sequential.
Import params stats stats.InputAssignerFactory.
Context `{!Lib}.

Lemma get_stored (p : Process) (a : addr) (parameters : Parameters) :
  global_assigner p = Some a →
  get parameters p = Returned (Some a) (LOG (INFO_reusing parameters) p).
Proof. intros Hg. unfold get. rewrite Hg. simpl. by rewrite Hg. Qed.

Lemma get_unset (p : Process) (parameters : Parameters) :
  global_assigner p = None →
  get parameters p =
    match switch_port_mode (configured_mode parameters)
            (get_str parameters LISTEN_PORT_MODE LISTEN_PORT_MODE_DEFAULT)
            parameters (LOG (INFO_creating parameters) p) with
    | inl (impl, q) => Returned (global_assigner (store impl q)) (store impl q)
    | inr q => Aborted q
    end.
Proof. intros Hg. unfold get. rewrite Hg. reflexivity. Qed.

Lemma switch_recognised (m : port_mode.Value) (s : string)
    (parameters : Parameters) (p : Process) (o : Object) :
  matching_strategy m parameters = Some o →
  switch_port_mode m s parameters p = inl (new o p).
Proof. destruct m; simpl; intros [= <-]; reflexivity. Qed.

Lemma get_constructs (p : Process) (parameters : Parameters) (o : Object) :
  global_assigner p = None →
  matching_strategy (configured_mode parameters) parameters = Some o →
  get parameters p =
    Returned (Some (S (length (heap p))))
      (mkProcess (heap p ++ [o; InputAssigner (length (heap p))])
         (Some (S (length (heap p))))
         (glog p ++ [INFO_creating parameters]) (S (resets p))).
Proof.
  intros Hg Hm. rewrite (get_unset _ _ Hg).
  rewrite (switch_recognised _ _ _ _ _ Hm).
  unfold store, new, reset, LOG. simpl.
  rewrite length_app, <- app_assoc. simpl.
  replace (length (heap p) + 1)%nat with (S (length (heap p))) by lia.
  reflexivity.
Qed.

Lemma get_aborts (p : Process) (parameters : Parameters) :
  global_assigner p = None →
  configured_mode parameters = port_mode.UNKNOWN →
  get parameters p =
    Aborted (LOG (FATAL_unknown LISTEN_PORT_MODE
                    (get_str parameters LISTEN_PORT_MODE
                       LISTEN_PORT_MODE_DEFAULT))
               (LOG (INFO_creating parameters) p)).
Proof.
  intros Hg Hm. rewrite (get_unset _ _ Hg), Hm. reflexivity.
Qed.

Lemma matching_strategy_recognised (m : port_mode.Value)
    (parameters : Parameters) :
  m ≠ port_mode.UNKNOWN → is_Some (matching_strategy m parameters).
Proof. destruct m; simpl; eauto; congruence. Qed.

Lemma matching_strategy_is_impl (m : port_mode.Value)
    (parameters : Parameters) (o : Object) :
  matching_strategy m parameters = Some o → is_impl o = true.
Proof. destruct m; simpl; intros [= <-]; reflexivity. Qed.

(** The three ways a call can go. *)
Lemma get_cases (p : Process) (parameters : Parameters) :
  (∃ a, global_assigner p = Some a ∧
        get parameters p =
          Returned (Some a) (LOG (INFO_reusing parameters) p)) ∨
  (∃ o, global_assigner p = None ∧
        matching_strategy (configured_mode parameters) parameters = Some o ∧
        get parameters p =
          Returned (Some (S (length (heap p))))
            (mkProcess (heap p ++ [o; InputAssigner (length (heap p))])
               (Some (S (length (heap p))))
               (glog p ++ [INFO_creating parameters]) (S (resets p)))) ∨
  (global_assigner p = None ∧
   configured_mode parameters = port_mode.UNKNOWN ∧
   get parameters p =
     Aborted (LOG (FATAL_unknown LISTEN_PORT_MODE
                     (get_str parameters LISTEN_PORT_MODE
                        LISTEN_PORT_MODE_DEFAULT))
                (LOG (INFO_creating parameters) p))).
Proof.
  destruct (global_assigner p) as [a|] eqn:Hg.
  - left. exists a. split; [done|]. by apply get_stored.
  - right.
    destruct (decide (configured_mode parameters = port_mode.UNKNOWN)) as [Hm|Hm].
    + right. repeat split; try done. by apply get_aborts.
    + left. destruct (matching_strategy_recognised _ parameters Hm) as [o Ho].
      exists o. repeat split; try done. by apply get_constructs.
Qed.

Lemma get_returned_set (p p' : Process) (parameters : Parameters)
    (r : shared_ptr) :
  get parameters p = Returned r p' →
  ∃ a, r = Some a ∧ global_assigner p' = Some a.
Proof.
  intros Hget.
  destruct (get_cases p parameters)
    as [(a & Hg & E)|[(o & Hg & Hm & E)|(Hg & Hm & E)]];
    rewrite E in Hget; inversion Hget; subst; simpl; eauto.
Qed.

Lemma get_all_stored (calls : list Parameters) (p : Process) (a : addr) :
  global_assigner p = Some a →
  Forall (λ o, ∃ p', o = Returned (Some a) p' ∧ heap p' = heap p ∧
                     global_assigner p' = Some a ∧ resets p' = resets p)
         (get_all calls p).
Proof.
  revert p. induction calls as [|parameters rest IH]; intros p Hg; simpl.
  - constructor.
  - rewrite (get_stored _ _ parameters Hg). constructor.
    + eexists. repeat split; done.
    + eapply Forall_impl; [apply IH; exact Hg|].
      simpl. intros o (p' & -> & Hh & Hg' & Hr). eauto.
Qed.

Lemma get_all_resets (calls : list Parameters) (p : Process) :
  Forall (λ o, (resets p ≤ resets (process_of o) ≤ S (resets p))%nat
               ∧ (is_Some (global_assigner p) →
                  resets (process_of o) = resets p))
         (get_all calls p).
Proof.
  revert p. induction calls as [|parameters rest IH]; intros p; simpl.
  - constructor.
  - destruct (get_cases p parameters)
      as [(a & Hg & E)|[(o & Hg & Hm & E)|(Hg & Hm & E)]]; rewrite E.
    + constructor; [simpl; split; [lia|done]|].
      eapply Forall_impl; [apply (IH (LOG (INFO_reusing parameters) p))|].
      simpl. intros x [Hx Hs]. split; [exact Hx|]. intros _.
      apply Hs. rewrite Hg. eauto.
    + constructor; [simpl; split; [lia|]|].
      { rewrite Hg. intros [? [=]]. }
      eapply Forall_impl; [apply IH|].
      simpl. intros x [Hx Hs]. specialize (Hs (ltac:(eauto))).
      split; [lia|]. rewrite Hg. intros [? [=]].
    + constructor; [|constructor]. simpl. split; [lia|done].
Qed.

(** C1.  Once an Input Assigner is stored, every call, whatever its
    configuration, returns the stored pointer; the heap, the handle and the
    number of assignments stay as they were and only a log line naming the
    ignored configuration is added.  Two configurations give the same pointer,
    and so does a further call made afterwards. *)
Theorem get_after_stored_ignores_configuration
    (p : Process) (a : addr) (parameters parameters' : Parameters) :
  global_assigner p = Some a →
  ∃ p1 p2 p3,
    get parameters p = Returned (Some a) p1 ∧
    get parameters' p = Returned (Some a) p2 ∧
    get parameters' p1 = Returned (Some a) p3 ∧
    p1 = mkProcess (heap p) (global_assigner p)
           (glog p ++ [INFO_reusing parameters]) (resets p) ∧
    heap p2 = heap p1 ∧ global_assigner p2 = global_assigner p1 ∧
    resets p2 = resets p1 ∧
    heap p3 = heap p ∧ global_assigner p3 = Some a ∧ resets p3 = resets p.
Proof.
  intros Hg.
  exists (LOG (INFO_reusing parameters) p), (LOG (INFO_reusing parameters') p),
    (LOG (INFO_reusing parameters') (LOG (INFO_reusing parameters) p)).
  repeat split; try (apply get_stored; exact Hg); done.
Qed.

(** C2.  A first call whose configuration parses to UNKNOWN aborts the
    process with the heap untouched, the handle still null and no assignment
    made; and a call aborts only in that situation, so no call with a
    recognised mode and no call after the handle is set is fatal. *)
Theorem get_fatal_exactly_on_unknown_mode
    (p : Process) (parameters : Parameters) :
  (global_assigner p = None →
   configured_mode parameters = port_mode.UNKNOWN →
   ∃ p', get parameters p = Aborted p' ∧
         heap p' = heap p ∧ global_assigner p' = None ∧
         resets p' = resets p ∧
         constructed_impls p' = constructed_impls p ∧
         constructed_assigners p' = constructed_assigners p) ∧
  (∀ p', get parameters p = Aborted p' →
         global_assigner p = None ∧
         configured_mode parameters = port_mode.UNKNOWN) ∧
  (configured_mode parameters ≠ port_mode.UNKNOWN →
   ∃ r p', get parameters p = Returned r p').
Proof.
  split; [|split].
  - intros Hg Hm. rewrite (get_aborts _ _ Hg Hm). eexists. split; [done|].
    repeat split; done.
  - intros p' Hget.
    destruct (get_cases p parameters)
      as [(a & Hg & E)|[(o & Hg & Hm & E)|(Hg & Hm & E)]];
      rewrite E in Hget; try discriminate. done.
  - intros Hm.
    destruct (get_cases p parameters)
      as [(a & Hg & E)|[(o & Hg & Hm' & E)|(Hg & Hm' & E)]];
      rewrite E; eauto. congruence.
Qed.

(** C3.  A first call whose mode parses to SINGLE, EPHEMERAL or RANGE
    allocates the implementation object of exactly that class, built from
    the call's parameters, then an InputAssigner pointing at it, assigns the
    address of that InputAssigner to the global handle (one assignment) and
    returns it. *)
Theorem get_first_call_builds_matching_strategy
    (p : Process) (parameters : Parameters) :
  global_assigner p = None →
  configured_mode parameters ≠ port_mode.UNKNOWN →
  ∃ o p',
    matching_strategy (configured_mode parameters) parameters = Some o ∧
    (configured_mode parameters = port_mode.SINGLE →
     o = SinglePortAssignerImpl parameters) ∧
    (configured_mode parameters = port_mode.EPHEMERAL →
     o = EphemeralPortAssignerImpl parameters) ∧
    (configured_mode parameters = port_mode.RANGE →
     o = PortRangeAssignerImpl parameters) ∧
    get parameters p = Returned (global_assigner p') p' ∧
    heap p' = heap p ++ [o; InputAssigner (length (heap p))] ∧
    global_assigner p' = Some (S (length (heap p))) ∧
    heap p' !! S (length (heap p)) = Some (InputAssigner (length (heap p))) ∧
    heap p' !! length (heap p) = Some o ∧
    resets p' = S (resets p).
Proof.
  intros Hg Hm.
  destruct (matching_strategy_recognised _ parameters Hm) as [o Ho].
  exists o,
    (mkProcess (heap p ++ [o; InputAssigner (length (heap p))])
       (Some (S (length (heap p))))
       (glog p ++ [INFO_creating parameters]) (S (resets p))).
  split; [exact Ho|].
  split; [intros E; rewrite E in Ho; by inversion Ho|].
  split; [intros E; rewrite E in Ho; by inversion Ho|].
  split; [intros E; rewrite E in Ho; by inversion Ho|].
  split; [rewrite (get_constructs _ _ _ Hg Ho); reflexivity|].
  simpl. repeat split; try done.
  - rewrite lookup_app_r by lia.
    replace (S (length (heap p)) - length (heap p))%nat with 1%nat by lia.
    reflexivity.
  - rewrite lookup_app_r by lia. rewrite Nat.sub_diag. reflexivity.
Qed.

(** C4.  Along every sequence of calls the global handle is assigned at
    most once, and from the first call that returns onwards every later call
    returns that same pointer, with the handle, the heap (so the object
    pointed at) and the number of assignments unchanged; no later call
    aborts. *)
Theorem global_assigner_set_at_most_once
    (calls : list Parameters) (p : Process) :
  Forall (λ o, (resets (process_of o) ≤ S (resets p))%nat) (get_all calls p) ∧
  ∀ (i j : nat) (ri : shared_ptr) (pi : Process) (oj : Outcome),
    (i ≤ j)%nat →
    get_all calls p !! i = Some (Returned ri pi) →
    get_all calls p !! j = Some oj →
    ∃ a pj, ri = Some a ∧ oj = Returned (Some a) pj ∧
            global_assigner pi = Some a ∧ global_assigner pj = Some a ∧
            heap pj = heap pi ∧ resets pj = resets pi.
Proof.
  split.
  - eapply Forall_impl; [apply get_all_resets|]. simpl. intros o [H1 _]. lia.
  - revert p. induction calls as [|parameters rest IH]; intros p i j ri pi oj Hij Hi Hj.
    + simpl in Hi. rewrite lookup_nil in Hi. discriminate.
    + simpl in Hi, Hj.
      destruct (get parameters p) as [r p'|p'] eqn:Hget.
      * destruct (get_returned_set _ _ _ _ Hget) as (a & -> & Hg').
        destruct i as [|i].
        -- simpl in Hi. inversion Hi; subst ri pi.
           destruct j as [|j].
           ++ simpl in Hj. inversion Hj; subst oj. exists a, p'. done.
           ++ simpl in Hj.
              pose proof (get_all_stored rest p' a Hg') as HF.
              rewrite Forall_lookup in HF.
              destruct (HF _ _ Hj) as (pj & -> & Hh & Hgj & Hr).
              exists a, pj. done.
        -- destruct j as [|j]; [lia|]. simpl in Hi, Hj.
           eapply IH; [|exact Hi|exact Hj]. lia.
      * destruct i as [|i]; simpl in Hi; [discriminate|].
        rewrite lookup_nil in Hi. discriminate.
Qed.

(** C10.  A call that returns hands back a pointer that is not null and is
    the stored global handle.  On the fast path it is the handle that was
    found set; on the construction path it is the address of an
    InputAssigner allocated by this very call. *)
Theorem get_returns_the_stored_non_null_handle
    (p p' : Process) (parameters : Parameters) (r : shared_ptr) :
  get parameters p = Returned r p' →
  r ≠ None ∧ r = global_assigner p' ∧
  (is_Some (global_assigner p) → r = global_assigner p) ∧
  (global_assigner p = None →
   ∃ a impl, r = Some a ∧ heap p !! a = None ∧
             heap p' !! a = Some (InputAssigner impl)).
Proof.
  intros Hget.
  destruct (get_cases p parameters)
    as [(a & Hg & E)|[(o & Hg & Hm & E)|(Hg & Hm & E)]];
    rewrite E in Hget; inversion Hget; subst; simpl.
  - repeat split; try done. rewrite Hg. discriminate.
  - repeat split; try done.
    + rewrite Hg. intros [? [=]].
    + intros _. exists (S (length (heap p))), (length (heap p)).
      split; [done|]. split.
      * apply lookup_ge_None. lia.
      * rewrite lookup_app_r by lia.
        replace (S (length (heap p)) - length (heap p))%nat with 1%nat by lia.
        reflexivity.
Qed.

Lemma get_str_mode_entries (parameters : Parameters) (d : string) :
  get_str (mode_entries parameters) LISTEN_PORT_MODE d =
  get_str parameters LISTEN_PORT_MODE d.
Proof.
  unfold mode_entries.
  induction parameters as [|[k v] rest IH]; [reflexivity|].
  rewrite filter_cons. simpl.
  destruct (decide (k = LISTEN_PORT_MODE)) as [->|Hne]; simpl.
  - rewrite decide_True by done. reflexivity.
  - exact IH.
Qed.

Lemma built_strategy_get (p : Process) (parameters : Parameters) :
  global_assigner p = None →
  built_strategy p (get parameters p) =
  matching_strategy (configured_mode parameters) parameters.
Proof.
  intros Hg.
  destruct (get_cases p parameters)
    as [(a & Hg' & E)|[(o & _ & Hm & E)|(_ & Hm & E)]]; [congruence| |].
  - rewrite E, Hm. simpl. rewrite lookup_app_r by lia.
    rewrite Nat.sub_diag. reflexivity.
  - rewrite E, Hm. reflexivity.
Qed.

Lemma matching_strategy_class (m : port_mode.Value) (parameters : Parameters) :
  strategy_class <$> matching_strategy m parameters =
  (if decide (m = port_mode.UNKNOWN) then None else Some (Some m)).
Proof. destruct m; reflexivity. Qed.

(** C6.  With [get_str] as the interface describes it: a configuration
    without the mode key makes the first call parse the default value, so the
    call behaves as the default mode dictates and the lookup itself never
    fails; and the mode read, hence the class of the strategy a first call
    builds, depends on the entries carrying the mode key alone. *)
Theorem get_defaults_mode_and_ignores_other_keys
    (p : Process) (parameters : Parameters) :
  (mode_entries parameters = [] →
   get_str parameters LISTEN_PORT_MODE LISTEN_PORT_MODE_DEFAULT =
     LISTEN_PORT_MODE_DEFAULT ∧
   configured_mode parameters = to_port_mode LISTEN_PORT_MODE_DEFAULT ∧
   (global_assigner p = None →
    built_strategy p (get parameters p) =
      matching_strategy (to_port_mode LISTEN_PORT_MODE_DEFAULT) parameters)) ∧
  (∀ parameters' : Parameters,
     mode_entries parameters' = mode_entries parameters →
     configured_mode parameters' = configured_mode parameters ∧
     (global_assigner p = None →
      strategy_class <$> built_strategy p (get parameters' p) =
      strategy_class <$> built_strategy p (get parameters p))).
Proof.
  split.
  - intros Habs.
    assert (E : get_str parameters LISTEN_PORT_MODE LISTEN_PORT_MODE_DEFAULT =
                LISTEN_PORT_MODE_DEFAULT).
    { rewrite <- get_str_mode_entries, Habs. reflexivity. }
    split; [exact E|]. split; [unfold configured_mode; by rewrite E|].
    intros Hg. rewrite (built_strategy_get _ _ Hg).
    unfold configured_mode. by rewrite E.
  - intros parameters' Hsame.
    assert (E : configured_mode parameters' = configured_mode parameters).
    { unfold configured_mode.
      rewrite <- (get_str_mode_entries parameters'), Hsame.
      by rewrite get_str_mode_entries. }
    split; [exact E|]. intros Hg.
    rewrite !built_strategy_get by done.
    rewrite !matching_strategy_class, E. reflexivity.
Qed.

End factory_sequential.

(** ** The factory under an arbitrary interleaving *)

Section factory_concurrent.
Import params stats stats.InputAssignerFactory concurrent.
Context `{!Lib}.

Ltac split_insert H :=
  apply list_lookup_insert_Some in H as [(<- & <- & ?)|(? & H)].

Lemma init_inv (calls : list Parameters) : Inv (init calls).
Proof.
  assert (Hl : ∀ t c, threads (init calls) !! t = Some c → ∃ ps, c = AtLock ps).
  { intros t c. simpl. rewrite list_lookup_fmap.
    destruct (calls !! t); simpl; intros [= <-]; eauto. }
  split.
  - intros t c Ht Hc. apply Hl in Ht as [ps ->]. discriminate.
  - simpl. discriminate.
  - exists NothingBuilt. split; [done|].
    intros t c Ht. apply Hl in Ht as [ps ->]. exact I.
Qed.

Lemma stage_ok_LOG (s : Stage) (m : Machine) (l : LogLine) :
  stage_ok s m →
  stage_ok s (mkMachine (LOG l (process m)) (global_assigner_mutex m)
                (threads m) (aborted m)).
Proof. destruct s; simpl; tauto. Qed.

Lemma step_inv (t : nat) (m : Machine) : Inv m → Inv (step t m).
Proof.
  intros HI. pose proof HI as [H1 H2 (s & Hs & Hall)]. unfold step.
  destruct (aborted m) eqn:Hab; [exact HI|].
  destruct (threads m !! t) as [c|] eqn:Ht; [|exact HI].
  pose proof (Hall _ _ Ht) as Hpc.
  assert (Hlt : (t < length (threads m))%nat) by (eapply lookup_lt_Some; eauto).
  destruct c as [ps|ps|ps|ps str mode|impl| |r]; simpl in Hpc.
  - (* the mutex is requested *)
    destruct (global_assigner_mutex m) as [h|] eqn:Hmx; [exact HI|].
    split; simpl.
    + intros t' c' Ht' Hc'. split_insert Ht'; [done|].
      specialize (H1 _ _ Ht' Hc'). congruence.
    + intros t' [= <-]. exists (AtCheck ps). split; [|done].
      by apply list_lookup_insert_eq.
    + assert (s ≠ ImplBuilt) as Hne.
      { intros ->. destruct Hs as (_ & _ & _ & t' & Ht' & _). congruence. }
      exists s. split.
      * destruct s; simpl in *; try tauto.
      * intros t' c' Ht'. split_insert Ht'; [|by eauto].
        simpl. destruct s; tauto.
  - (* the handle is tested *)
    assert (Hh : global_assigner_mutex m = Some t) by (by eapply H1).
    destruct (global_assigner (process m)) as [a|] eqn:Hg.
    + assert (s = Stored) as ->.
      { destruct s; simpl in Hs; [| |done]; destruct Hs as (_ & Hs & _);
          congruence. }
      split; simpl.
      * intros t' c' Ht' Hc'. split_insert Ht'; [done|]. by eapply H1.
      * intros t' Hm'. rewrite Hh in Hm'. inversion Hm'; subst t'.
        exists AtReturn. split; [|done]. by apply list_lookup_insert_eq.
      * exists Stored. split; [exact Hs|].
        intros t' c' Ht'. split_insert Ht'; [done|by eauto].
    + assert (s = NothingBuilt) as ->.
      { destruct s; simpl in Hs; [done| |].
        - destruct Hs as (_ & _ & _ & t' & Ht' & Hst). congruence.
        - destruct Hs as (_ & Hs & _). congruence. }
      split; simpl.
      * intros t' c' Ht' Hc'. split_insert Ht'; [done|]. by eapply H1.
      * intros t' Hm'. rewrite Hh in Hm'. inversion Hm'; subst t'.
        exists (AtParse ps). split; [|done]. by apply list_lookup_insert_eq.
      * exists NothingBuilt. split; [exact Hs|].
        intros t' c' Ht'. split_insert Ht'; [done|by eauto].
  - (* the mode is read and parsed *)
    assert (Hh : global_assigner_mutex m = Some t) by (by eapply H1).
    subst s. split; simpl.
    + intros t' c' Ht' Hc'. split_insert Ht'; [done|]. by eapply H1.
    + intros t' Hm'. rewrite Hh in Hm'. inversion Hm'; subst t'.
      eexists. split; [by apply list_lookup_insert_eq|done].
    + exists NothingBuilt. split; [exact Hs|].
      intros t' c' Ht'. split_insert Ht'; [done|by eauto].
  - (* the switch *)
    assert (Hh : global_assigner_mutex m = Some t) by (by eapply H1).
    subst s. destruct Hs as (Hheap & Hg & Hr).
    assert (Hothers : ∀ t' c', t ≠ t' → threads m !! t' = Some c' →
                               ∃ ps', c' = AtLock ps').
    { intros t' c' Hne Ht'. destruct (in_critical c') eqn:Hc'.
      - specialize (H1 _ _ Ht' Hc'). congruence.
      - specialize (Hall _ _ Ht'). destruct c'; try discriminate; eauto.
        simpl in Hall. destruct Hall; discriminate. }
    destruct mode; simpl.
    1-3: split; simpl;
      [ intros t' c' Ht' Hc'; split_insert Ht'; [done|by eapply H1]
      | intros t' Hm'; rewrite Hh in Hm'; inversion Hm'; subst t';
        eexists; split; [by apply list_lookup_insert_eq|done]
      | exists ImplBuilt; split;
        [ simpl; rewrite Hheap; simpl;
          split; [eexists; split; [|reflexivity]; reflexivity|];
          split; [done|]; split; [done|];
          exists t; split; [done|by apply list_lookup_insert_eq]
        | intros t' c' Ht'; split_insert Ht';
          [ simpl; rewrite Hheap; done
          | destruct (Hothers _ _ ltac:(done) Ht') as [ps' ->]; exact I ] ] ].
    split; simpl; [done|done|].
    exists NothingBuilt. split; [done|done].
  - (* the store *)
    assert (Hh : global_assigner_mutex m = Some t) by (by eapply H1).
    destruct Hpc as [-> ->].
    destruct Hs as ((o & Ho & Hheap) & Hg & Hr & _).
    assert (Hothers : ∀ t' c', t ≠ t' → threads m !! t' = Some c' →
                               ∃ ps', c' = AtLock ps').
    { intros t' c' Hne Ht'. destruct (in_critical c') eqn:Hc'.
      - specialize (H1 _ _ Ht' Hc'). congruence.
      - specialize (Hall _ _ Ht'). destruct c'; try discriminate; eauto.
        simpl in Hall. destruct Hall; discriminate. }
    split; simpl.
    + intros t' c' Ht' Hc'. split_insert Ht'; [done|]. by eapply H1.
    + intros t' Hm'. rewrite Hh in Hm'. inversion Hm'; subst t'.
      eexists. split; [by apply list_lookup_insert_eq|done].
    + exists Stored. split.
      * unfold store, new, reset. simpl. rewrite Hheap, Hr. simpl.
        repeat split; eauto.
      * intros t' c' Ht'. split_insert Ht'; [done|].
        destruct (Hothers _ _ ltac:(done) Ht') as [ps' ->]. exact I.
  - (* the return: the handle is copied, then the mutex is released *)
    assert (Hh : global_assigner_mutex m = Some t) by (by eapply H1).
    subst s. pose proof Hs as ((o & Ho & Hheap) & Hg & Hr).
    split; simpl.
    + intros t' c' Ht' Hc'. split_insert Ht'; [done|].
      specialize (H1 _ _ Ht' Hc'). congruence.
    + discriminate.
    + exists Stored. split; [exact Hs|].
      intros t' c' Ht'. split_insert Ht'; [by rewrite Hg|by eauto].
  - exact HI.
Qed.

Lemma run_inv (schedule : list nat) (m : Machine) :
  Inv m → Inv (run schedule m).
Proof.
  revert m. induction schedule as [|t rest IH]; intros m Hm; simpl; [done|].
  apply IH, step_inv, Hm.
Qed.

Lemma stage_counts (s : Stage) (m : Machine) :
  stage_ok s m →
  constructed_impls (process m) = (if decide (s = NothingBuilt) then 0 else 1)%nat ∧
  constructed_assigners (process m) = (if decide (s = Stored) then 1 else 0)%nat ∧
  resets (process m) = (if decide (s = Stored) then 1 else 0)%nat.
Proof.
  unfold constructed_impls, constructed_assigners.
  destruct s; simpl.
  - intros (-> & _ & ->). done.
  - intros ((o & Ho & ->) & _ & -> & _).
    rewrite !filter_cons, !filter_nil.
    destruct o; try discriminate; simpl; done.
  - intros ((o & Ho & ->) & _ & ->).
    rewrite !filter_cons, !filter_nil.
    destruct o; try discriminate; simpl; done.
Qed.

Lemma step_enabled (t : nat) (m : Machine) (c : pc) :
  aborted m = false →
  threads m !! t = Some c →
  in_critical c = true ∨
    (global_assigner_mutex m = None ∧ is_done c = false) →
  step t m ≠ m.
Proof.
  intros Hab Ht Hc E.
  assert (Hlt : (t < length (threads m))%nat) by (eapply lookup_lt_Some; eauto).
  unfold step in E. rewrite Hab, Ht in E.
  assert (Hstay : ∀ p mx c', c' ≠ c →
            mkMachine p mx (<[t := c']> (threads m)) false ≠ m).
  { intros p mx c' Hne E'. apply (f_equal (λ x, threads x !! t)) in E'.
    simpl in E'. rewrite list_lookup_insert_eq in E' by done. congruence. }
  destruct c as [ps|ps|ps|ps str mode|impl| |r].
  - destruct Hc as [Hc|[Hmx _]]; [discriminate|]. rewrite Hmx in E.
    by eapply Hstay in E.
  - destruct (global_assigner (process m)); by eapply Hstay in E.
  - by eapply Hstay in E.
  - destruct (switch_port_mode mode str ps (process m)) as [[impl p]|p].
    + by eapply Hstay in E.
    + apply (f_equal aborted) in E. simpl in E. congruence.
  - by eapply Hstay in E.
  - by eapply Hstay in E.
  - destruct Hc as [Hc|[_ Hc]]; discriminate.
Qed.

(** A thread running alone through [get] does what the sequential function
    does in one go: six steps take it from the lock to the caller, or to the
    abort. *)
Lemma alone_run_is_get (parameters : Parameters) (p : Process) :
  let m := run [0; 0; 0; 0; 0; 0]%nat
             (mkMachine p None [AtLock parameters] false) in
  match get parameters p with
  | Returned r p' => m = mkMachine p' None [Done r] false
  | Aborted p' => process m = p' ∧ aborted m = true
  end.
Proof.
  cbn zeta. cbn [run].
  change (step 0 (mkMachine p None [AtLock parameters] false))
    with (mkMachine p (Some 0%nat) [AtCheck parameters] false).
  unfold get.
  destruct (global_assigner p) as [a|] eqn:Hg.
  - replace (step 0 (mkMachine p (Some 0%nat) [AtCheck parameters] false))
      with (mkMachine (LOG (INFO_reusing parameters) p) (Some 0%nat)
              [AtReturn] false)
      by (unfold step; cbn [aborted threads process]; cbn [lookup list_lookup];
          rewrite Hg; reflexivity).
    reflexivity.
  - replace (step 0 (mkMachine p (Some 0%nat) [AtCheck parameters] false))
      with (mkMachine p (Some 0%nat) [AtParse parameters] false)
      by (unfold step; cbn [aborted threads process]; cbn [lookup list_lookup];
          rewrite Hg; reflexivity).
    set (str := get_str parameters LISTEN_PORT_MODE LISTEN_PORT_MODE_DEFAULT).
    change (step 0 (mkMachine p (Some 0%nat) [AtParse parameters] false))
      with (mkMachine (LOG (INFO_creating parameters) p) (Some 0%nat)
              [AtSwitch parameters str (to_port_mode str)] false).
    cbn zeta.
    destruct (to_port_mode str); first [reflexivity | split; reflexivity].
Qed.

Lemma init_carries (calls : list Parameters) (t : nat) (c : pc) :
  threads (init calls) !! t = Some c → carries calls t c.
Proof.
  simpl. rewrite list_lookup_fmap.
  destruct (calls !! t) eqn:E; simpl; intros [= <-]. exact E.
Qed.

Lemma step_carries (calls : list Parameters) (t : nat) (m : Machine) :
  (∀ t' c, threads m !! t' = Some c → carries calls t' c) →
  (aborted m = true →
   ∃ t' ps str, threads m !! t' = Some (AtSwitch ps str port_mode.UNKNOWN)) →
  (∀ t' c, threads (step t m) !! t' = Some c → carries calls t' c) ∧
  (aborted (step t m) = true →
   ∃ t' ps str,
     threads (step t m) !! t' = Some (AtSwitch ps str port_mode.UNKNOWN)).
Proof.
  intros Hc Hab. unfold step.
  destruct (aborted m) eqn:Eab; [split; [exact Hc|intros; first [by apply Hab|congruence]]|].
  destruct (threads m !! t) as [c|] eqn:Ht; [|split; [exact Hc|intros; first [by apply Hab|congruence]]].
  pose proof (Hc _ _ Ht) as Hct.
  destruct c as [ps|ps|ps|ps str mode|impl| |r]; simpl in Hct.
  - destruct (global_assigner_mutex m); [split; [exact Hc|intros; first [by apply Hab|congruence]]|].
    split; [|done].
    simpl. intros t' c Ht'. split_insert Ht'; [done|by eauto].
  - destruct (global_assigner (process m)); (split; [|done]);
      simpl; intros t' c Ht'; (split_insert Ht'; [done|by eauto]).
  - split; [|done].
    simpl. intros t' c Ht'. split_insert Ht'; [done|by eauto].
  - destruct Hct as [Hps ->].
    destruct (configured_mode ps) eqn:Em; simpl.
    1-3: split; [|done]; intros t' c Ht';
      (split_insert Ht'; [done|by eauto]).
    split; [done|]. intros _. eauto.
  - split; [|done].
    simpl. intros t' c Ht'. split_insert Ht'; [done|by eauto].
  - split; [|done].
    simpl. intros t' c Ht'. split_insert Ht'; [done|by eauto].
  - split; [exact Hc|intros; first [by apply Hab|congruence]].
Qed.

Lemma run_carries (calls : list Parameters) (schedule : list nat)
    (m : Machine) :
  (∀ t c, threads m !! t = Some c → carries calls t c) →
  (aborted m = true →
   ∃ t ps str, threads m !! t = Some (AtSwitch ps str port_mode.UNKNOWN)) →
  (∀ t c, threads (run schedule m) !! t = Some c → carries calls t c) ∧
  (aborted (run schedule m) = true →
   ∃ t ps str,
     threads (run schedule m) !! t = Some (AtSwitch ps str port_mode.UNKNOWN)).
Proof.
  revert m. induction schedule as [|t rest IH]; intros m Hc Hab; simpl.
  - by split.
  - destruct (step_carries calls t m Hc Hab) as [Hc' Hab']. by apply IH.
Qed.

Lemma sum_list_insert_lt (f : pc → nat) (l : list pc) (t : nat) (c c' : pc) :
  l !! t = Some c → (f c' < f c)%nat →
  (sum_list (f <$> <[t := c']> l) < sum_list (f <$> l))%nat.
Proof.
  revert t. induction l as [|x l IH]; intros [|t] Ht Hlt; simpl in *;
    try discriminate.
  - inversion Ht; subst. by apply Nat.add_lt_mono_r.
  - specialize (IH _ Ht Hlt). by apply Nat.add_lt_mono_l.
Qed.

(** A step that changes the machine either aborts it or uses up work: no
    thread can run for ever. *)
Lemma step_uses_work (t : nat) (m : Machine) :
  step t m ≠ m →
  aborted (step t m) = true ∨ (work_left (step t m) < work_left m)%nat.
Proof.
  unfold step, work_left.
  destruct (aborted m) eqn:Eab; [done|].
  destruct (threads m !! t) as [c|] eqn:Ht; [|done].
  destruct c as [ps|ps|ps|ps str mode|impl| |r]; intros Hmove.
  - destruct (global_assigner_mutex m); [done|]. right. simpl.
    eapply sum_list_insert_lt; [done|simpl; lia].
  - right. destruct (global_assigner (process m)); simpl;
      (eapply sum_list_insert_lt; [done|simpl; lia]).
  - right. simpl. eapply sum_list_insert_lt; [done|simpl; lia].
  - destruct (switch_port_mode mode str ps (process m)) as [[impl p]|p];
      simpl; [right|by left].
    eapply sum_list_insert_lt; [done|simpl; lia].
  - right. simpl. eapply sum_list_insert_lt; [done|simpl; lia].
  - right. simpl. eapply sum_list_insert_lt; [done|simpl; lia].
  - done.
Qed.

(** C5.  Whatever the number of threads calling [get] and whatever the
    interleaving: every position from the test of the handle to the return
    is inside one critical section that only the holder of the mutex
    occupies; at most one strategy (and one InputAssigner) is ever
    constructed and the handle is assigned at most once; as soon as any call
    has returned exactly one strategy exists and every returned pointer is
    the global handle, pointing at the one InputAssigner that wraps it.  The
    machine never deadlocks and every step uses up work, so the calls do
    return, unless the process aborts; and it aborts only when the thread
    that found the handle null had parsed an unknown mode, in which case
    nothing was built and no call has returned. *)
Theorem concurrent_first_calls_build_one_strategy
    (calls : list Parameters) (schedule : list nat) :
  let m := run schedule (init calls) in
  (∀ t t' c c',
     threads m !! t = Some c → threads m !! t' = Some c' →
     in_critical c = true → in_critical c' = true →
     t = t' ∧ global_assigner_mutex m = Some t) ∧
  (constructed_impls (process m) ≤ 1 ∧
   constructed_assigners (process m) ≤ 1 ∧
   resets (process m) ≤ 1)%nat ∧
  (∀ t r,
     threads m !! t = Some (Done r) →
     constructed_impls (process m) = 1%nat ∧
     constructed_assigners (process m) = 1%nat ∧
     r = global_assigner (process m) ∧
     ∃ a impl o, r = Some a ∧
                 heap (process m) !! a = Some (InputAssigner impl) ∧
                 heap (process m) !! impl = Some o ∧ is_impl o = true) ∧
  (∀ t t' r r',
     threads m !! t = Some (Done r) → threads m !! t' = Some (Done r') →
     r = r') ∧
  (aborted m = false →
   (∃ t c, threads m !! t = Some c ∧ is_done c = false) →
   ∃ t, step t m ≠ m ∧
        (aborted (step t m) = true ∨
         (work_left (step t m) < work_left m)%nat)) ∧
  (aborted m = true →
   (∃ t ps, calls !! t = Some ps ∧
            configured_mode ps = port_mode.UNKNOWN) ∧
   constructed_impls (process m) = 0%nat ∧
   ∀ t c, threads m !! t = Some c → is_done c = false).
Proof.
  intros m.
  destruct (run_inv schedule _ (init_inv calls)) as [H1 H2 (s & Hs & Hall)].
  destruct (run_carries calls schedule (init calls) (init_carries calls)
              ltac:(discriminate)) as [Hcar Hwhy].
  fold m in H1, H2, Hs, Hall, Hcar, Hwhy.
  destruct (stage_counts _ _ Hs) as (Hci & Hca & Hr).
  split; [|split; [|split; [|split; [|split]]]].
  - intros t t' c c' Ht Ht' Hc Hc'.
    pose proof (H1 _ _ Ht Hc) as E. pose proof (H1 _ _ Ht' Hc') as E'.
    split; [congruence|done].
  - rewrite Hci, Hca, Hr. repeat case_decide; lia.
  - intros t r Ht. destruct (Hall _ _ Ht) as [-> ->].
    rewrite Hci, Hca. simpl.
    destruct Hs as ((o & Ho & Hheap) & Hg & _).
    repeat split; try done.
    exists 1%nat, 0%nat, o. rewrite Hheap. done.
  - intros t t' r r' Ht Ht'.
    destruct (Hall _ _ Ht) as [_ ->]. destruct (Hall _ _ Ht') as [_ ->]. done.
  - intros Hab (t & c & Ht & Hc).
    assert (∃ t', step t' m ≠ m) as [t' Hmove].
    { destruct (global_assigner_mutex m) as [h|] eqn:Hmx.
      - destruct (H2 _ eq_refl) as (ch & Hh & Hcrit).
        exists h. eapply step_enabled; eauto.
      - exists t. eapply step_enabled; eauto. }
    exists t'. split; [exact Hmove|]. by apply step_uses_work.
  - intros Hab. destruct (Hwhy Hab) as (t & ps & str & Ht).
    destruct (Hcar _ _ Ht) as [Hps Hmode].
    assert (s = NothingBuilt) as -> by exact (Hall _ _ Ht).
    split; [eauto|]. split; [by rewrite Hci|].
    intros t' c Ht'. specialize (Hall _ _ Ht').
    destruct c; try done. by destruct Hall.
Qed.

End factory_concurrent.

(** ** The Range Strategy *)

Section range_strategy.
Import RangeStrategy.
Local Open Scope Z_scope.

Lemma elem_of_range_ports (lo hi p : Port) :
  p ∈ range_ports lo hi ↔ lo ≤ p ≤ hi.
Proof. unfold range_ports. rewrite elem_of_seqZ. lia. Qed.

Lemma candidates_free (offer : ResourceOffer) (rt : ReservationTable) (p : Port) :
  p ∈ candidates offer rt → p ∈ free rt.
Proof.
  unfold candidates. rewrite list_elem_of_filter. intros [_ Hp].
  rewrite merge_sort_Permutation in Hp. by apply elem_of_elements in Hp.
Qed.

Lemma chosen_free (n : nat) (offer : ResourceOffer) (rt : ReservationTable) :
  list_to_set (C:=gset Port) (take n (candidates offer rt)) ⊆ free rt.
Proof.
  intros p Hp. apply elem_of_list_to_set in Hp.
  eapply candidates_free, subseteq_take, Hp.
Qed.

Lemma elem_of_reserved_ports (rt : ReservationTable) (p : Port) :
  p ∈ reserved_ports rt ↔
  ∃ task ports, reserved rt !! task = Some ports ∧ p ∈ ports.
Proof.
  unfold reserved_ports. rewrite elem_of_union_list. split.
  - intros (X & HX & Hp). apply list_elem_of_fmap in HX as ([t X'] & -> & Ht).
    apply elem_of_map_to_list in Ht. eauto.
  - intros (t & X & Ht & Hp). exists X. split; [|done].
    apply list_elem_of_fmap. exists (t, X). split; [done|].
    by apply elem_of_map_to_list.
Qed.

Lemma init_partitioned (lo hi : Port) : partitioned (init lo hi).
Proof.
  split; simpl.
  - intros p t s _ Ht. by rewrite lookup_empty in Ht.
  - intros t1 t2 s1 s2 _ Ht. by rewrite lookup_empty in Ht.
  - intros p. rewrite elem_of_list_to_set, elem_of_range_ports. split.
    + by left.
    + intros [Hp|(t & s & Ht & _)]; [done|]. by rewrite lookup_empty in Ht.
Qed.

Lemma assign_partitioned (task : TaskId) (reqs : list EndpointRequirement)
    (offer : ResourceOffer) (rt : ReservationTable) :
  partitioned rt → partitioned (assign task reqs offer rt).2.
Proof.
  intros HI. pose proof HI as [H1 H2 H3]. unfold assign.
  destruct (reserved rt !! task) as [old|] eqn:Hold; [exact HI|].
  cbn zeta. case_decide as Hlen; [exact HI|]. simpl.
  set (C := list_to_set (take (length reqs) (candidates offer rt)) : gset Port).
  assert (HC : C ⊆ free rt) by apply chosen_free.
  split; simpl.
  - intros p t s Hp Ht. apply elem_of_difference in Hp as [Hp HpC].
    apply lookup_insert_Some in Ht as [[<- <-]|[Hne Ht]]; [done|].
    by eapply H1.
  - intros t1 t2 s1 s2 Hne Ht1 Ht2.
    apply lookup_insert_Some in Ht1 as [[<- <-]|[Hne1 Ht1]];
      apply lookup_insert_Some in Ht2 as [[<- <-]|[Hne2 Ht2]]; try done.
    + intros p Hp1 Hp2. eapply H1; [apply HC, Hp1|exact Ht2|exact Hp2].
    + intros p Hp1 Hp2. eapply H1; [apply HC, Hp2|exact Ht1|exact Hp1].
    + exact (H2 _ _ _ _ Hne Ht1 Ht2).
  - intros p. rewrite H3. split.
    + intros [Hp|(t & s & Ht & Hp)].
      * destruct (decide (p ∈ C)) as [HpC|HpC].
        -- right. exists task, C. split; [by rewrite lookup_insert_eq|done].
        -- left. by apply elem_of_difference.
      * right. exists t, s. split; [|done].
        rewrite lookup_insert_ne; [done|]. intros <-. congruence.
    + intros [Hp|(t & s & Ht & Hp)].
      * left. by apply elem_of_difference in Hp as [Hp _].
      * apply lookup_insert_Some in Ht as [[<- <-]|[Hne Ht]].
        -- left. by apply HC.
        -- right. eauto.
Qed.

Lemma release_partitioned (task : TaskId) (rt : ReservationTable) :
  partitioned rt → partitioned (release task rt).
Proof.
  intros HI. pose proof HI as [H1 H2 H3]. unfold release.
  destruct (reserved rt !! task) as [ports|] eqn:Hold; [|exact HI].
  split; simpl.
  - intros p t s Hp Ht. apply lookup_delete_Some in Ht as [Hne Ht].
    apply elem_of_union in Hp as [Hp|Hp].
    + by eapply H1.
    + intros Hps. by eapply (H2 task t ports s Hne Hold Ht p).
  - intros t1 t2 s1 s2 Hne Ht1 Ht2.
    apply lookup_delete_Some in Ht1 as [_ Ht1].
    apply lookup_delete_Some in Ht2 as [_ Ht2].
    exact (H2 _ _ _ _ Hne Ht1 Ht2).
  - intros p. rewrite H3. split.
    + intros [Hp|(t & s & Ht & Hp)].
      * left. apply elem_of_union. by left.
      * destruct (decide (t = task)) as [->|Hne].
        -- left. apply elem_of_union. right. congruence.
        -- right. exists t, s. split; [|done]. by rewrite lookup_delete_ne.
    + intros [Hp|(t & s & Ht & Hp)].
      * apply elem_of_union in Hp as [Hp|Hp]; [by left|]. right. eauto.
      * apply lookup_delete_Some in Ht as [_ Ht]. right. eauto.
Qed.

Lemma apply_bounds (op : Op) (rt : ReservationTable) :
  low (apply op rt) = low rt ∧ high (apply op rt) = high rt.
Proof.
  destruct op as [task reqs offer|task]; simpl.
  - unfold assign. destruct (reserved rt !! task); [done|].
    cbn zeta. by case_decide.
  - unfold release. by destruct (reserved rt !! task).
Qed.

Lemma run_partitioned (ops : list Op) (rt : ReservationTable) :
  partitioned rt →
  partitioned (run ops rt) ∧
  low (run ops rt) = low rt ∧ high (run ops rt) = high rt.
Proof.
  revert rt. induction ops as [|op rest IH]; intros rt HI; simpl; [done|].
  destruct (apply_bounds op rt) as [El Eh].
  destruct (IH (apply op rt)) as (HI' & El' & Eh').
  - destruct op; simpl; [by apply assign_partitioned|by apply release_partitioned].
  - split; [done|]. split; congruence.
Qed.

(** C7.  With the Range Strategy as the specification describes it: after
    any sequence of assigns and releases on a strategy configured with
    [lo, hi], the free set and the reserved sets of the tasks partition the
    interval: no port is free and reserved at once, two tasks never share a
    port, the free and reserved ports together are exactly the ports of
    [lo, hi], so none outside is free or reserved. *)
Theorem range_strategy_partitions_the_range
    (lo hi : Port) (ops : list Op) :
  let rt := run ops (init lo hi) in
  free rt ## reserved_ports rt ∧
  (∀ t1 t2 s1 s2, t1 ≠ t2 → reserved rt !! t1 = Some s1 →
                  reserved rt !! t2 = Some s2 → s1 ## s2) ∧
  free rt ∪ reserved_ports rt = list_to_set (range_ports lo hi) ∧
  (∀ p, p ∈ free rt ∨ p ∈ reserved_ports rt → lo ≤ p ≤ hi).
Proof.
  intros rt.
  destruct (run_partitioned ops _ (init_partitioned lo hi))
    as ([H1 H2 H3] & El & Eh).
  fold rt in H1, H2, H3, El, Eh. simpl in El, Eh.
  assert (Hcover : ∀ p, p ∈ free rt ∨ p ∈ reserved_ports rt ↔ lo ≤ p ≤ hi).
  { intros p. rewrite elem_of_reserved_ports, <- H3, El, Eh. done. }
  split; [|split; [|split]].
  - intros p Hf Hr. apply elem_of_reserved_ports in Hr as (t & s & Ht & Hp).
    by eapply H1.
  - exact H2.
  - apply set_eq. intros p.
    rewrite elem_of_union, elem_of_list_to_set, elem_of_range_ports.
    apply Hcover.
  - intros p. apply Hcover.
Qed.

End range_strategy.

(** ** The collector configuration *)

Section go_config.
Import config.
Context `{!World}.

Ltac run_monad :=
  unfold mbind, M_bind, bind, call, say, receiver, with_MesosAgent, with_Node,
    log_if_error, ret, panic, os_Exit in *.

Lemma getNodeInfo_client_error (c : Config) (st : St) (client : pointer)
    (e : string) (w1 : W) :
  NewMetricsClient (CACertificatePath c) (IAMConfigPath c) (world st)
    = ((client, Some e), w1) →
  getNodeInfo c st =
    Ret (c, Some e) (mkSt w1 (journal st ++ [log_Debug "Getting node info"])).
Proof.
  intros E. unfold getNodeInfo. run_monad. simpl. rewrite E. reflexivity.
Qed.

Lemma getNodeInfo_proceeds (c : Config) (st : St) (client : pointer)
    (w1 w2 w3 w4 : W) (h : nat) (herr iperr miderr : error) (ip : IP)
    (mid : string) (n : node.NodeCollector)
    (a : mesos_agent.MesosAgentCollector) :
  NewMetricsClient (CACertificatePath c) (IAMConfigPath c) (world st)
    = ((client, None), w1) →
  NewNodeInfo client (stateURL c) w1 = ((Some h, herr), w2) →
  DetectIP h w2 = ((ip, iperr), w3) →
  NodeInfo_MesosID h w3 = ((mid, miderr), w4) →
  Node (Collector c) = Some n →
  MesosAgent (Collector c) = Some a →
  let lines := journal st ++ [log_Debug "Getting node info"] ++
               failure_lines herr iperr miderr in
  (DCOSRole c ≠ RoleMaster →
   getNodeInfo c st =
     Ret (node_info_written (IP_String ip) mid n a c, None) (mkSt w4 lines)) ∧
  (DCOSRole c = RoleMaster →
   ∀ cid ciderr w5,
     NodeInfo_ClusterID h w4 = ((cid, ciderr), w5) →
     getNodeInfo c st =
       Ret (cluster_id_written (IP_String ip) mid cid n a c, ciderr)
         (mkSt w5 lines)).
Proof.
  intros E1 E2 E3 E4 En Ea lines. subst lines.
  unfold getNodeInfo, failure_lines. run_monad. simpl.
  rewrite E1. simpl. rewrite E2. split.
  - intros Hrole.
    destruct herr, iperr, miderr; simpl; rewrite E3; simpl;
      rewrite Ea, En; simpl; rewrite E4; simpl;
      rewrite decide_False by done; rewrite <- ?app_assoc; reflexivity.
  - intros Hrole cid ciderr w5 E5.
    destruct herr, iperr, miderr; simpl; rewrite E3; simpl;
      rewrite Ea, En; simpl; rewrite E4; simpl;
      rewrite decide_True by done; simpl; rewrite E5; simpl;
      destruct ciderr; rewrite <- ?app_assoc; reflexivity.
Qed.

Ltac split_run H :=
  repeat first
    [ discriminate H
    | match type of H with
      | context [match ?x with _ => _ end] =>
          lazymatch x with
          | context [match _ with _ => _ end] => fail
          | _ => idtac
          end;
          let E := fresh "E" in destruct x eqn:E; simpl in H
      end ].

(** What a returning [getNodeInfo] has done: only the collectors may
    differ, and an error comes from the client or, on a master, from the
    cluster identifier. *)
Lemma getNodeInfo_returned (c c' : Config) (err : error) (st st' : St) :
  getNodeInfo c st = Ret (c', err) st' →
  (Producers c' = Producers c ∧ IAMConfigPath c' = IAMConfigPath c ∧
   CACertificatePath c' = CACertificatePath c ∧
   VersionFlag c' = VersionFlag c ∧ MesosID c' = MesosID c ∧
   IPAddress c' = IPAddress c ∧ ClusterID c' = ClusterID c ∧
   DCOSRole c' = DCOSRole c ∧ ConfigPath c' = ConfigPath c ∧
   LogLevel c' = LogLevel c) ∧
  (∀ e, err = Some e →
     (∃ client w,
        NewMetricsClient (CACertificatePath c) (IAMConfigPath c) (world st)
          = ((client, Some e), w)) ∨
     (DCOSRole c = RoleMaster ∧
      ∃ h w cid w', NodeInfo_ClusterID h w = ((cid, Some e), w'))).
Proof.
  intros Hrun. unfold getNodeInfo in Hrun. run_monad. simpl in Hrun.
  split_run Hrun; inversion Hrun; subst; simpl; (split; [done|]);
    intros e' [= <-]; eauto 10.
Qed.

Lemma loadConfig_read (c : Config) (st : St) (fileByte : list Z) (w1 : W)
    (doc : YamlDoc) (uerr : error) :
  ReadFile (ConfigPath c) (world st) = ((fileByte, None), w1) →
  Unmarshal fileByte = (doc, uerr) →
  loadConfig c st = Ret (unmarshal_into doc c, uerr) (mkSt w1 (journal st)).
Proof.
  intros E1 E2. unfold loadConfig. run_monad. rewrite E1. simpl. rewrite E2.
  destruct uerr; reflexivity.
Qed.

Lemma unmarshal_into_entry (f : FlagField) (v : FieldValue) (doc : YamlDoc)
    (c : Config) :
  yaml_entry f doc = Some v → field f (unmarshal_into doc c) = v.
Proof.
  destruct f; simpl; intros Hv;
    apply fmap_Some in Hv as (x & -> & ->); reflexivity.
Qed.

Lemma unmarshal_into_no_entry (f : FlagField) (doc : YamlDoc) (c : Config) :
  yaml_entry f doc = None → field f (unmarshal_into doc c) = field f c.
Proof.
  destruct f; simpl; intros Hv; apply fmap_None in Hv; rewrite Hv;
    reflexivity.
Qed.

Lemma field_preserved (f : FlagField) (c c' : Config) :
  VersionFlag c' = VersionFlag c → DCOSRole c' = DCOSRole c →
  ConfigPath c' = ConfigPath c → LogLevel c' = LogLevel c →
  field f c' = field f c.
Proof. intros. destruct f; simpl; congruence. Qed.

(** What is left of [getNewConfig] once the file has been loaded leaves the
    flag-bound fields alone. *)
Lemma getNewConfig_after_load (args : list string) (st st' : St)
    (settings : list FlagSetting) (fileByte : list Z) (w1 : W)
    (doc : YamlDoc) (uerr : error) (c : Config) (err : error)
    (f : FlagField) :
  Parse args = (settings, ParseOk) →
  ReadFile (ConfigPath (after_flags settings)) (world st)
    = ((fileByte, None), w1) →
  Unmarshal fileByte = (doc, uerr) →
  getNewConfig args st = Ret (c, err) st' →
  field f c = field f (unmarshal_into doc (after_flags settings)).
Proof.
  intros EP ER EU Hrun. unfold getNewConfig in Hrun. rewrite EP in Hrun.
  fold (after_flags settings) in Hrun.
  unfold mbind at 1, M_bind at 1, bind at 1 in Hrun.
  rewrite (loadConfig_read _ _ _ _ _ _ ER EU) in Hrun.
  set (c1 := unmarshal_into doc (after_flags settings)) in *.
  destruct uerr as [e|]; [by inversion Hrun|].
  unfold mbind at 1, M_bind at 1, bind at 1 in Hrun.
  destruct (getNodeInfo c1 _) as [[c2 err2] st2| |] eqn:EN; try discriminate.
  apply getNodeInfo_returned in EN as [(_ & _ & _ & Hv & _ & _ & _ & Hr & Hp & Hl) _].
  assert (Hc2 : field f c2 = field f c1) by (by apply field_preserved).
  destruct err2 as [e|]; [by inversion Hrun; subst|].
  run_monad. simpl in Hrun.
  split_run Hrun; inversion Hrun; subst; rewrite <- Hc2;
    by apply field_preserved.
Qed.

(** C8.  In [getNewConfig] the flags are parsed first and the file named by
    the resulting [ConfigPath] is loaded afterwards; so whenever the call
    returns, a flag-bound field (ConfigPath, LogLevel, DCOSRole,
    VersionFlag) that the command line sets and that the file sets as well
    holds the value from the file, whatever the flag said. *)
Theorem config_file_overrides_flags
    (args : list string) (st st' : St) (settings : list FlagSetting)
    (fileByte : list Z) (w1 : W) (doc : YamlDoc) (uerr : error)
    (f : FlagField) (v_flag v_file : FieldValue) (s : FlagSetting)
    (c : Config) (err : error) :
  Parse args = (settings, ParseOk) →
  flag_setting f v_flag = Some s → s ∈ settings →
  ReadFile (ConfigPath (after_flags settings)) (world st)
    = ((fileByte, None), w1) →
  Unmarshal fileByte = (doc, uerr) →
  yaml_entry f doc = Some v_file →
  getNewConfig args st = Ret (c, err) st' →
  field f c = v_file.
Proof.
  intros EP _ _ ER EU Hv Hrun.
  rewrite (getNewConfig_after_load _ _ _ _ _ _ _ _ _ _ f EP ER EU Hrun).
  by apply unmarshal_into_entry.
Qed.

(** Where a returned error comes from: the client, or the cluster
    identifier lookup this very call makes on a master, after the node
    information, the address and the Mesos identifier have been asked
    for. *)
Lemma getNodeInfo_error_source (c c' : Config) (e : string) (st st' : St) :
  getNodeInfo c st = Ret (c', Some e) st' →
  (∃ client w,
     NewMetricsClient (CACertificatePath c) (IAMConfigPath c) (world st)
       = ((client, Some e), w)) ∨
  (DCOSRole c = RoleMaster ∧
   ∃ client w1 h herr w2 ip iperr w3 mid miderr w4 cid,
     NewMetricsClient (CACertificatePath c) (IAMConfigPath c) (world st)
       = ((client, None), w1) ∧
     NewNodeInfo client (stateURL c) w1 = ((Some h, herr), w2) ∧
     DetectIP h w2 = ((ip, iperr), w3) ∧
     NodeInfo_MesosID h w3 = ((mid, miderr), w4) ∧
     NodeInfo_ClusterID h w4 = ((cid, Some e), world st')).
Proof.
  intros Hrun. unfold getNodeInfo in Hrun. run_monad. simpl in Hrun.
  split_run Hrun; inversion Hrun; subst;
    first
      [ by (left; eauto)
      | right; (split; [assumption|]); do 12 eexists;
        repeat (split; [first [reflexivity|eassumption]|]);
        simpl; eassumption ].
Qed.

(** What [getNodeInfo] does when nothing it dereferences is nil.  It
    returns an error only when the client cannot be built or, on a master,
    when the cluster identifier lookup of this call fails.  When
    [NewNodeInfo] hands back a usable node-info value and both collector
    pointers are set, the failures of [NewNodeInfo], [DetectIP] and [MesosID]
    are logged and nothing more: the address and the identifier they
    returned are written into both collectors, a non-master returns nil, and
    a master writes the cluster identifier and returns the error of its
    lookup. *)
Theorem getNodeInfo_errors_and_tolerated_failures (c : Config) (st : St) :
  (∀ c' e st',
     getNodeInfo c st = Ret (c', Some e) st' →
     (∃ client w,
        NewMetricsClient (CACertificatePath c) (IAMConfigPath c) (world st)
          = ((client, Some e), w)) ∨
     (DCOSRole c = RoleMaster ∧
      ∃ client w1 h herr w2 ip iperr w3 mid miderr w4 cid,
        NewMetricsClient (CACertificatePath c) (IAMConfigPath c) (world st)
          = ((client, None), w1) ∧
        NewNodeInfo client (stateURL c) w1 = ((Some h, herr), w2) ∧
        DetectIP h w2 = ((ip, iperr), w3) ∧
        NodeInfo_MesosID h w3 = ((mid, miderr), w4) ∧
        NodeInfo_ClusterID h w4 = ((cid, Some e), world st'))) ∧
  (∀ client w1 w2 w3 w4 h herr iperr miderr ip mid n a,
     NewMetricsClient (CACertificatePath c) (IAMConfigPath c) (world st)
       = ((client, None), w1) →
     NewNodeInfo client (stateURL c) w1 = ((Some h, herr), w2) →
     DetectIP h w2 = ((ip, iperr), w3) →
     NodeInfo_MesosID h w3 = ((mid, miderr), w4) →
     Node (Collector c) = Some n →
     MesosAgent (Collector c) = Some a →
     let lines := journal st ++ [log_Debug "Getting node info"] ++
                  failure_lines herr iperr miderr in
     (DCOSRole c ≠ RoleMaster →
      getNodeInfo c st =
        Ret (node_info_written (IP_String ip) mid n a c, None)
          (mkSt w4 lines)) ∧
     (DCOSRole c = RoleMaster →
      ∀ cid ciderr w5,
        NodeInfo_ClusterID h w4 = ((cid, ciderr), w5) →
        getNodeInfo c st =
          Ret (cluster_id_written (IP_String ip) mid cid n a c, ciderr)
            (mkSt w5 lines))).
Proof.
  split.
  - intros c' e st' Hrun. by eapply getNodeInfo_error_source.
  - intros. by eapply getNodeInfo_proceeds.
Qed.

End go_config.

(** ** The model on concrete inputs *)

Section concrete.
Import params stats stats.InputAssignerFactory.

Lemma get_after_stored_witness :
  ∃ p1, get (H:=sample_lib) [("listen_port_mode", "single")]%string
          stored_sample = Returned (Some 1%nat) p1 ∧
        heap p1 = heap stored_sample ∧
        global_assigner p1 = global_assigner stored_sample.
Proof.
  destruct (@get_after_stored_ignores_configuration sample_lib stored_sample
              1%nat [("listen_port_mode", "single")]%string [] eq_refl)
    as (p1 & p2 & p3 & H1 & _ & _ & E & _).
  exists p1. split; [exact H1|]. rewrite E. split; reflexivity.
Defined.

Lemma get_fatal_witness :
  ∃ p', get (H:=sample_lib) [("listen_port_mode", "bogus")]%string start
          = Aborted p' ∧
        heap p' = [] ∧ global_assigner p' = None.
Proof.
  destruct (proj1 (@get_fatal_exactly_on_unknown_mode sample_lib start
                     [("listen_port_mode", "bogus")]%string)
              eq_refl eq_refl)
    as (p' & H1 & H2 & H3 & _).
  exists p'. split; [exact H1|]. split; [exact H2|exact H3].
Defined.

Lemma get_first_call_witness :
  ∃ p', get (H:=sample_lib) [("listen_port_mode", "range")]%string start
          = Returned (Some 1%nat) p' ∧
        heap p' = [PortRangeAssignerImpl
                     [("listen_port_mode", "range")]%string;
                   InputAssigner 0%nat].
Proof.
  destruct (@get_first_call_builds_matching_strategy sample_lib start
              [("listen_port_mode", "range")]%string eq_refl
              ltac:(discriminate))
    as (o & p' & Ho & _ & _ & Hr & Hget & Hheap & Hg & _).
  exists p'. rewrite Hg in Hget. split; [exact Hget|].
  rewrite Hheap, (Hr eq_refl). reflexivity.
Defined.

Lemma global_assigner_set_once_witness :
  ∃ a p1 p3,
    get_all (H:=sample_lib)
      [[("listen_port_mode", "single")]; [("listen_port_mode", "bogus")];
       []]%string start !! 0%nat = Some (Returned (Some a) p1) ∧
    get_all (H:=sample_lib)
      [[("listen_port_mode", "single")]; [("listen_port_mode", "bogus")];
       []]%string start !! 2%nat = Some (Returned (Some a) p3) ∧
    heap p3 = heap p1 ∧ resets p3 = resets p1.
Proof.
  pose proof (proj2 (@global_assigner_set_at_most_once sample_lib
                       [[("listen_port_mode", "single")];
                        [("listen_port_mode", "bogus")]; []]%string start)
                0%nat 2%nat) as Hlater.
  destruct (Hlater _ _ _ ltac:(lia) eq_refl eq_refl)
    as (a & p3 & Ha & Ho & _ & _ & Hh & Hr).
  cbv in Ha. inversion Ha; subst a.
  eexists 1%nat, _, p3.
  split; [reflexivity|]. split; [|split; [exact Hh|exact Hr]].
  rewrite <- Ho. reflexivity.
Defined.

Lemma get_returns_non_null_witness :
  Some 1%nat ≠ None (A:=addr).
Proof.
  exact (proj1 (@get_returns_the_stored_non_null_handle sample_lib start _
                  [("listen_port_mode", "ephemeral")]%string (Some 1%nat)
                  eq_refl)).
Defined.

Lemma get_defaults_mode_witness :
  configured_mode (H:=sample_lib) [("listen_port_start", "7000")]%string
    = port_mode.EPHEMERAL ∧
  configured_mode (H:=sample_lib)
    [("colour", "blue"); ("listen_port_mode", "range")]%string
    = port_mode.RANGE.
Proof.
  split.
  - exact (proj1 (proj2 (proj1 (@get_defaults_mode_and_ignores_other_keys
             sample_lib start [("listen_port_start", "7000")]%string)
           eq_refl))).
  - exact (proj1 (proj2 (@get_defaults_mode_and_ignores_other_keys
             sample_lib start [("listen_port_mode", "range")]%string)
           [("colour", "blue"); ("listen_port_mode", "range")]%string
           eq_refl)).
Defined.

Import concurrent.

(** Three threads; the second gets the mutex first, the others reuse what
    it stored, although the first asked for an unknown mode. *)
Lemma concurrent_first_calls_witness :
  let m := run (H:=sample_lib)
             [1; 0; 1; 1; 2; 1; 1; 1; 0; 0; 0; 2; 2; 2]%nat
             (init [[("listen_port_mode", "bogus")];
                    [("listen_port_mode", "range")]; []]%string) in
  threads m = [Done (Some 1%nat); Done (Some 1%nat); Done (Some 1%nat)] ∧
  constructed_impls (process m) = 1%nat.
Proof.
  intros m. split; [reflexivity|].
  exact (proj1 (proj1 (proj2 (proj2
           (@concurrent_first_calls_build_one_strategy sample_lib
              [[("listen_port_mode", "bogus")];
               [("listen_port_mode", "range")]; []]%string
              [1; 0; 1; 1; 2; 1; 1; 1; 0; 0; 0; 2; 2; 2]%nat)))
           0%nat (Some 1%nat) eq_refl)).
Defined.

End concrete.

Section concrete_range.
Import RangeStrategy.
Local Open Scope Z_scope.

(** The scenario of the specification: the range 10000-10003, two tasks
    taking two ports each, a third finding none, and a fourth reusing what
    the first gave back. *)
Example range_scenario :
  let two := [mkRequirement "a" None; mkRequirement "b" None] in
  let offer : ResourceOffer := [(9000, 11000)] in
  let a := assign "A" two offer (init 10000 10003) in
  let b := assign "B" two offer a.2 in
  let c := assign "C" [mkRequirement "c" None] offer b.2 in
  let d := assign "D" two offer (release "A" c.2) in
  a.1 = inl [("a", 10000); ("b", 10001)]%string ∧
  b.1 = inl [("a", 10002); ("b", 10003)]%string ∧
  c.1 = inr PortUnavailable ∧
  d.1 = inl [("a", 10000); ("b", 10001)]%string ∧
  (assign "B" two offer d.2).1 = inr DuplicateAssignment.
Proof. vm_compute. repeat split. Qed.

Lemma range_strategy_partition_witness :
  let rt := run [Assign "A" [mkRequirement "a" None] [(9000, 11000)];
                 Release "B";
                 Assign "B" [mkRequirement "b" None] [(10003, 10001)];
                 Release "A"] (init 10000 10003) in
  free rt ∪ reserved_ports rt = list_to_set (range_ports 10000 10003).
Proof.
  exact (proj1 (proj2 (proj2
           (range_strategy_partitions_the_range 10000 10003
              [Assign "A" [mkRequirement "a" None] [(9000, 11000)];
               Release "B";
               Assign "B" [mkRequirement "b" None] [(10003, 10001)];
               Release "A"])))).
Defined.

End concrete_range.

Section concrete_config.
Import config.

(** C8 at work: the command line asks for the log level warn, the file it
    names asks for debug, and debug is what the returned configuration
    holds. *)
Lemma config_file_overrides_flags_witness :
  ∃ c err st',
    getNewConfig (H:=sample_world (Some 2%nat) None)
      ["-config"; "site.yaml"; "-loglevel"; "warn"]%string
      (sample_St (Some 2%nat) None [])
      = Ret (c, err) st' ∧
    field FieldLogLevel c = StringValue "debug".
Proof.
  eexists _, _, _. split; [vm_compute; reflexivity|].
  eapply (@config_file_overrides_flags (sample_world (Some 2%nat) None)
            ["-config"; "site.yaml"; "-loglevel"; "warn"]%string
            (sample_St (Some 2%nat) None []) _ _ [1]%Z tt _ None FieldLogLevel
            (StringValue "warn") (StringValue "debug")
            (SetString "loglevel" "warn")).
  - reflexivity.
  - reflexivity.
  - apply list_elem_of_In. simpl. right. left. reflexivity.
  - reflexivity.
  - reflexivity.
  - reflexivity.
  - vm_compute. reflexivity.
Defined.

(** C9.  The claim has a failure of [NewNodeInfo] only logged, the function
    going on to write the address and the Mesos identifier into both
    collectors and returning nil on a non-master.  The code does not do
    that: with the default configuration, a client at hand and [NewNodeInfo]
    failing and handing back nil, it logs the failure and the very next
    statement, the method call of line 108 on the nil value, panics; nothing
    is written and nothing is returned. *)
Lemma getNodeInfo_panics_on_failed_node_info :
  getNodeInfo (H:=sample_world None (Some "unreachable"%string)) newConfig
    (sample_St None (Some "unreachable"%string) [])
  = Panicked (sample_St None (Some "unreachable"%string)
                [log_Debug "Getting node info";
                 log_Errorf "Error getting NodeInfo{}: err"]) ∧
  ¬ non_master_returns_nil (H:=sample_world None (Some "unreachable"%string)).
Proof.
  split; [reflexivity|].
  intros Hclaim.
  destruct (Hclaim newConfig (sample_St None (Some "unreachable"%string) [])
              (Some 1%nat) tt _ _
              eq_refl eq_refl eq_refl ltac:(discriminate))
    as (c' & st' & Hrun).
  discriminate Hrun.
Qed.

(** A nil collector pointer has the same effect, whatever the lookups
    answer. *)
Lemma getNodeInfo_panics_on_nil_collector :
  getNodeInfo (H:=sample_world (Some 2%nat) None) no_collectors
    (sample_St (Some 2%nat) None [])
  = Panicked (sample_St (Some 2%nat) None [log_Debug "Getting node info"]).
Proof. reflexivity. Qed.

(** The tolerated failures at work: the node information is built, the
    address and the identifier lookups fail; two lines are logged after the
    first, the nil address and the empty identifier are written into both
    collectors and nil is returned. *)
Lemma getNodeInfo_tolerated_failures_witness :
  getNodeInfo (H:=sample_world_lookups_fail) newConfig
    (@mkSt sample_world_lookups_fail tt [])
  = Ret (node_info_written "<nil>" ""
           (node.mkNodeCollector 15 (dcos.mkNodeInfo "" "" ""))
           (mesos_agent.mkMesosAgentCollector 15 5051
              (dcos.mkNodeInfo "" "" "") None)
           newConfig, None)
      (@mkSt sample_world_lookups_fail tt
         [log_Debug "Getting node info";
          log_Error "no address detected";
          log_Error "state not reachable"]).
Proof.
  exact (proj1
           (proj2 (@getNodeInfo_errors_and_tolerated_failures
                     sample_world_lookups_fail newConfig
                     (@mkSt sample_world_lookups_fail tt []))
              (Some 1%nat) tt tt tt tt 2%nat None
              (Some "no address detected"%string)
              (Some "state not reachable"%string)
              [] ""%string _ _ eq_refl eq_refl eq_refl eq_refl eq_refl
              eq_refl)
           ltac:(discriminate)).
Defined.

End concrete_config.

(** * Part III: further properties *)

(** ** The factory over a sequence of calls *)

Section factory_sequences.
Import params stats stats.InputAssignerFactory.
Context `{!Lib}.

Lemma get_all_stored_length (calls : list Parameters) (p : Process) :
  is_Some (global_assigner p) → length (get_all calls p) = length calls.
Proof.
  revert p. induction calls as [|parameters rest IH]; intros p [a Hg];
    simpl; [done|].
  rewrite (get_stored _ _ parameters Hg). simpl. rewrite IH; [done|].
  simpl. eauto.
Qed.

(** Only the very first call of a process can be fatal: an abort is the
    outcome of the call at index 0, made with the handle null and a
    configuration parsing to UNKNOWN, and nothing follows it; if the first
    call is not fatal every call of the sequence is answered. *)
Theorem only_first_call_can_abort (calls : list Parameters) (p : Process) :
  (∀ i q, get_all calls p !! i = Some (Aborted q) →
          i = 0%nat ∧ global_assigner p = None ∧
          length (get_all calls p) = 1%nat ∧
          ∃ parameters, calls !! 0%nat = Some parameters ∧
                        configured_mode parameters = port_mode.UNKNOWN) ∧
  ((∀ q, get_all calls p !! 0%nat ≠ Some (Aborted q)) →
   length (get_all calls p) = length calls).
Proof.
  destruct calls as [|parameters rest]; simpl.
  { split; [|done]. intros i q Hi. by rewrite lookup_nil in Hi. }
  destruct (get_cases p parameters)
    as [(a & Hg & E)|[(o & Hg & Hm & E)|(Hg & Hm & E)]]; rewrite E.
  - pose proof (get_all_stored rest (LOG (INFO_reusing parameters) p) a Hg)
      as HF.
    split.
    + intros [|i] q Hi; simpl in Hi; [discriminate|].
      rewrite Forall_lookup in HF.
      destruct (HF _ _ Hi) as (q' & Hq & _). discriminate.
    + intros _. simpl. rewrite get_all_stored_length; [done|].
      simpl. rewrite Hg. eauto.
  - split.
    + intros [|i] q Hi; simpl in Hi; [discriminate|].
      pose proof (get_all_stored rest _ _
                    (eq_refl : global_assigner
                       (mkProcess
                          (heap p ++ [o; InputAssigner (length (heap p))])
                          (Some (S (length (heap p))))
                          (glog p ++ [INFO_creating parameters])
                          (S (resets p))) = Some (S (length (heap p)))))
        as HF.
      rewrite Forall_lookup in HF.
      destruct (HF _ _ Hi) as (q' & Hq & _). discriminate.
    + intros _. simpl. rewrite get_all_stored_length; [done|]. simpl. eauto.
  - split.
    + intros [|i] q Hi; simpl in Hi.
      * repeat split; try done. eauto.
      * by rewrite lookup_nil in Hi.
    + intros Hno. by destruct (Hno _ eq_refl).
Qed.

(** First writer wins: when the first call finds the handle null and its
    mode is recognised, every call of the sequence returns the address of
    the InputAssigner built by that first call, and the heap holds the
    strategy made from the first call's parameters and nothing else new,
    whatever the later configurations say. *)
Theorem first_configuration_wins
    (p : Process) (first : Parameters) (rest : list Parameters) (o : Object) :
  global_assigner p = None →
  matching_strategy (configured_mode first) first = Some o →
  length (get_all (first :: rest) p) = S (length rest) ∧
  Forall (λ out, ∃ q, out = Returned (Some (S (length (heap p)))) q ∧
                      heap q = heap p ++ [o; InputAssigner (length (heap p))] ∧
                      resets q = S (resets p))
         (get_all (first :: rest) p).
Proof.
  intros Hg Hm. simpl. rewrite (get_constructs _ _ _ Hg Hm). split.
  - simpl. rewrite get_all_stored_length; [done|]. simpl. eauto.
  - constructor; [eexists; repeat split; done|].
    eapply Forall_impl; [eapply get_all_stored; reflexivity|].
    simpl. intros out (q & -> & Hh & _ & Hr). eauto.
Qed.

Lemma get_wellformed (p : Process) (parameters : Parameters) :
  handle_wellformed p →
  handle_wellformed (process_of (get parameters p)) ∧
  heap p `prefix_of` heap (process_of (get parameters p)).
Proof.
  intros Hwf.
  destruct (get_cases p parameters)
    as [(a & Hg & E)|[(o & Hg & Hm & E)|(Hg & Hm & E)]]; rewrite E; simpl.
  - split; [exact Hwf|done].
  - split; [|by apply prefix_app_r].
    intros a [= <-]. exists (length (heap p)), o. simpl.
    split; [|split].
    + rewrite lookup_app_r by lia.
      replace (S (length (heap p)) - length (heap p))%nat with 1%nat by lia.
      reflexivity.
    + rewrite lookup_app_r by lia. by rewrite Nat.sub_diag.
    + by eapply matching_strategy_is_impl.
  - split; [|done]. intros a Ha. simpl in Ha. congruence.
Qed.

(** [get] never frees or overwrites an object: whatever was on the heap
    stays at its address through any sequence of calls; and a handle that
    points at an InputAssigner wrapping a strategy keeps doing so, so every
    pointer handed out can be dereferenced down to its strategy. *)
Theorem get_keeps_objects_and_handle
    (calls : list Parameters) (p : Process) :
  handle_wellformed p →
  Forall (λ out, handle_wellformed (process_of out) ∧
                 heap p `prefix_of` heap (process_of out) ∧
                 ∀ a x, heap p !! a = Some x →
                        heap (process_of out) !! a = Some x)
         (get_all calls p).
Proof.
  revert p. induction calls as [|parameters rest IH]; intros p Hwf; simpl.
  { constructor. }
  destruct (get_wellformed p parameters Hwf) as [Hwf' Hpre].
  destruct (get parameters p) as [r p'|p'] eqn:E; simpl in *.
  - constructor.
    + split; [done|]. split; [done|].
      intros a x Ha. by eapply prefix_lookup_Some.
    + eapply Forall_impl; [apply IH, Hwf'|].
      simpl. intros out (Hw & Hp & Hl). split; [done|].
      split; [by etransitivity|].
      intros a x Ha. apply Hl. by eapply prefix_lookup_Some.
  - constructor; [|constructor].
    split; [done|]. split; [done|].
    intros a x Ha. by eapply prefix_lookup_Some.
Qed.

Lemma get_log (p : Process) (parameters : Parameters) :
  omap logged_parameters (glog (process_of (get parameters p))) =
  omap logged_parameters (glog p) ++ [parameters].
Proof.
  destruct (get_cases p parameters)
    as [(a & Hg & E)|[(o & Hg & Hm & E)|(Hg & Hm & E)]]; rewrite E; simpl;
    rewrite ?omap_app; simpl; by rewrite ?app_nil_r.
Qed.

(** The log is append-only and names every configuration handed in: after
    the call at index [i] the INFO lines print, in order, what was printed
    before followed by the parameters of the calls made so far, the ignored
    ones included; an abort adds the FATAL line naming the key and the
    offending mode string. *)
Theorem get_all_logs_every_call (calls : list Parameters) (p : Process) :
  ∀ i out,
    get_all calls p !! i = Some out →
    omap logged_parameters (glog (process_of out)) =
      omap logged_parameters (glog p) ++ take (S i) calls ∧
    (∀ q, out = Aborted q →
          ∃ parameters, calls !! i = Some parameters ∧
            last (glog q) =
              Some (FATAL_unknown LISTEN_PORT_MODE
                      (get_str parameters LISTEN_PORT_MODE
                         LISTEN_PORT_MODE_DEFAULT))).
Proof.
  revert p. induction calls as [|parameters rest IH]; intros p i out Hi;
    simpl in Hi.
  { by rewrite lookup_nil in Hi. }
  pose proof (get_log p parameters) as Hlog.
  destruct (get parameters p) as [r p'|p'] eqn:E; simpl in *.
  - destruct i as [|i]; simpl in Hi.
    + inversion Hi; subst out. simpl. split; [by rewrite take_0|].
      intros q [=].
    + destruct (IH _ _ _ Hi) as [Hl Hab]. split.
      * rewrite Hl, Hlog, <- app_assoc. reflexivity.
      * exact Hab.
  - destruct i as [|i]; simpl in Hi; [|by rewrite lookup_nil in Hi].
    inversion Hi; subst out. simpl. split; [by rewrite take_0|].
    intros q [= <-]. exists parameters. split; [done|].
    destruct (get_cases p parameters)
      as [(a & Hg & E')|[(o & Hg & Hm & E')|(Hg & Hm & E')]];
      rewrite E' in E; inversion E; subst p'.
    simpl. by rewrite last_snoc.
Qed.

End factory_sequences.

(** ** The machine: who built the strategy, and the sequential schedule *)

Section machine_further.
Import params stats stats.InputAssignerFactory concurrent.
Context `{!Lib}.

Ltac split_insert H :=
  apply list_lookup_insert_Some in H as [(<- & <- & ?)|(? & H)].

Lemma step_strategy (calls : list Parameters) (t : nat) (m : Machine) :
  Inv m →
  (∀ t' c, threads m !! t' = Some c → carries calls t' c) →
  strategy_of_a_caller calls (process m) →
  strategy_of_a_caller calls (process (step t m)).
Proof.
  intros [H1 H2 (s & Hs & Hall)] Hcar Hst. unfold step.
  destruct (aborted m); [done|].
  destruct (threads m !! t) as [c|] eqn:Ht; [|done].
  pose proof (Hall _ _ Ht) as Hpc. pose proof (Hcar _ _ Ht) as Hct.
  destruct c as [ps|ps|ps|ps str mode|impl| |r]; simpl in Hpc, Hct.
  - by destruct (global_assigner_mutex m).
  - by destruct (global_assigner (process m)).
  - done.
  - subst s. destruct Hs as (Hheap & _). destruct Hct as [Hps ->].
    destruct (configured_mode ps) eqn:Em; simpl; [| | |done];
      intros o Ho; rewrite Hheap in Ho; simpl in Ho; inversion Ho; subst o;
      exists t, ps; (split; [done|]); by rewrite Em.
  - destruct Hpc as [-> ->]. destruct Hs as ((o & _ & Hheap) & _).
    intros o' Ho'. apply Hst. unfold store, new, reset in Ho'. simpl in Ho'.
    rewrite Hheap in Ho' |- *. exact Ho'.
  - done.
  - done.
Qed.

Lemma run_strategy (calls : list Parameters) (schedule : list nat)
    (m : Machine) :
  Inv m →
  (∀ t c, threads m !! t = Some c → carries calls t c) →
  (aborted m = true →
   ∃ t ps str, threads m !! t = Some (AtSwitch ps str port_mode.UNKNOWN)) →
  strategy_of_a_caller calls (process m) →
  strategy_of_a_caller calls (process (run schedule m)).
Proof.
  revert m. induction schedule as [|t rest IH]; intros m HI Hc Hab Hst;
    simpl; [done|].
  destruct (step_carries calls t m Hc Hab) as [Hc' Hab'].
  apply IH; [by apply step_inv|done|done|by apply step_strategy].
Qed.

(** Under every interleaving, once the handle is set it points at an
    InputAssigner wrapping the strategy that one of the callers asked for:
    an object of the class of that caller's mode, built from that caller's
    parameters.  No strategy is ever made from a mixture of two
    configurations or from none. *)
Theorem stored_strategy_comes_from_a_caller
    (calls : list Parameters) (schedule : list nat) :
  let m := run schedule (init calls) in
  ∀ a, global_assigner (process m) = Some a →
       ∃ impl o t ps,
         heap (process m) !! a = Some (InputAssigner impl) ∧
         heap (process m) !! impl = Some o ∧
         calls !! t = Some ps ∧
         matching_strategy (configured_mode ps) ps = Some o ∧
         strategy_class o = Some (configured_mode ps).
Proof.
  intros m a Ha.
  destruct (run_inv schedule _ (init_inv calls)) as [_ _ (s & Hs & _)].
  fold m in Hs.
  assert (Hst : strategy_of_a_caller calls (process m)).
  { apply run_strategy.
    - apply init_inv.
    - apply init_carries.
    - discriminate.
    - intros o Ho. simpl in Ho. discriminate. }
  destruct s; simpl in Hs.
  - destruct Hs as (_ & Hg & _). congruence.
  - destruct Hs as (_ & Hg & _). congruence.
  - destruct Hs as ((o & Ho & Hheap) & Hg & _).
    rewrite Hg in Ha. inversion Ha; subst a.
    destruct (Hst o) as (t & ps & Hps & Hm); [by rewrite Hheap|].
    exists 0%nat, o, t, ps. rewrite Hheap. repeat split; try done.
    pose proof (matching_strategy_class (configured_mode ps) ps) as Hc.
    rewrite Hm in Hc. simpl in Hc.
    case_decide as Hu; [discriminate|]. by inversion Hc.
Qed.

Lemma insert_middle (pre post : list pc) (c c' : pc) :
  <[length pre := c']> (pre ++ c :: post) = pre ++ c' :: post.
Proof.
  rewrite insert_app_r_alt by lia. by rewrite Nat.sub_diag.
Qed.

(** The step of the thread that sits after [pre]. *)
Lemma step_middle (pre post : list pc) (c : pc) (p : Process)
    (mx : option nat) :
  step (length pre) (mkMachine p mx (pre ++ c :: post) false) =
  match c with
  | AtLock ps =>
      match mx with
      | None => mkMachine p (Some (length pre)) (pre ++ AtCheck ps :: post) false
      | Some _ => mkMachine p mx (pre ++ c :: post) false
      end
  | AtCheck ps =>
      match global_assigner p with
      | Some _ =>
          mkMachine (LOG (INFO_reusing ps) p) mx (pre ++ AtReturn :: post) false
      | None => mkMachine p mx (pre ++ AtParse ps :: post) false
      end
  | AtParse ps =>
      mkMachine (LOG (INFO_creating ps) p) mx
        (pre ++ AtSwitch ps
                  (get_str ps LISTEN_PORT_MODE LISTEN_PORT_MODE_DEFAULT)
                  (configured_mode ps) :: post) false
  | AtSwitch ps str mode =>
      match switch_port_mode mode str ps p with
      | inl (impl, p') => mkMachine p' mx (pre ++ AtStore impl :: post) false
      | inr p' => mkMachine p' mx (pre ++ c :: post) true
      end
  | AtStore impl => mkMachine (store impl p) mx (pre ++ AtReturn :: post) false
  | AtReturn =>
      mkMachine p None (pre ++ Done (global_assigner p) :: post) false
  | Done _ => mkMachine p mx (pre ++ c :: post) false
  end.
Proof.
  unfold step. cbn [aborted threads process global_assigner_mutex].
  rewrite list_lookup_middle by done.
  destruct c as [ps|ps|ps|ps str mode|impl| |r];
    rewrite ?insert_middle; try reflexivity.
  destruct (switch_port_mode mode str ps p) as [[impl p']|p'];
    by rewrite ?insert_middle.
Qed.

Lemma run_aborted (schedule : list nat) (m : Machine) :
  aborted m = true → run schedule m = m.
Proof.
  intros Hab. induction schedule as [|t rest IH]; simpl; [done|].
  unfold step. rewrite Hab. exact IH.
Qed.

Lemma run_aborted_step (t : nat) (m : Machine) :
  aborted m = true → step t m = m.
Proof. intros Hab. unfold step. by rewrite Hab. Qed.

Lemma run_app (s1 s2 : list nat) (m : Machine) :
  run (s1 ++ s2) m = run s2 (run s1 m).
Proof. revert m. induction s1 as [|t s1 IH]; intros m; simpl; [done|apply IH]. Qed.

(** Six steps take the thread after [pre] through its whole call, with the
    effect of the sequential function on the process. *)
Lemma thread_run_is_get (pre post : list pc) (ps : Parameters) (p : Process) :
  run (replicate 6 (length pre))
    (mkMachine p None (pre ++ AtLock ps :: post) false) =
  match get ps p with
  | Returned r p' => mkMachine p' None (pre ++ Done r :: post) false
  | Aborted p' =>
      mkMachine p' (Some (length pre))
        (pre ++ AtSwitch ps
                  (get_str ps LISTEN_PORT_MODE LISTEN_PORT_MODE_DEFAULT)
                  port_mode.UNKNOWN :: post) true
  end.
Proof.
  cbn [replicate run]. rewrite step_middle.
  destruct (get_cases p ps)
    as [(a & Hg & E)|[(o & Hg & Hm & E)|(Hg & Hm & E)]]; rewrite E.
  - rewrite step_middle, Hg. rewrite step_middle. simpl.
    rewrite !step_middle. by rewrite Hg.
  - rewrite step_middle, Hg. rewrite step_middle. rewrite step_middle.
    rewrite (switch_recognised _ _ _ _ _ Hm). simpl.
    rewrite !step_middle. unfold store, new, reset, LOG. simpl.
    rewrite length_app, <- app_assoc. simpl.
    replace (length (heap p) + 1)%nat with (S (length (heap p))) by lia.
    reflexivity.
  - rewrite step_middle, Hg. rewrite step_middle. rewrite step_middle.
    rewrite Hm. simpl.
    rewrite !(run_aborted_step _ (mkMachine _ _ _ true)) by reflexivity.
    reflexivity.
Qed.

Lemma run_in_turn (pre : list pc) (rest : list Parameters) (p : Process) :
  let m := run (concat ((λ t, replicate 6 t) <$>
                         seq (length pre) (length rest)))
             (mkMachine p None (pre ++ (AtLock <$> rest)) false) in
  let outs := get_all rest p in
  process m = default p (process_of <$> last outs) ∧
  (aborted m = true ↔ ∃ q, last outs = Some (Aborted q)) ∧
  (∀ i r q, outs !! i = Some (Returned r q) →
            threads m !! (length pre + i)%nat = Some (Done r)) ∧
  (∀ i c, pre !! i = Some c → threads m !! i = Some c).
Proof.
  revert pre p. induction rest as [|ps rest IH]; intros pre p; cbn zeta.
  - simpl. rewrite app_nil_r.
    split; [done|]. split; [split; [done|intros (q & [=])]|].
    split; [|done]. intros i r q Hi. by rewrite lookup_nil in Hi.
  - cbn [length seq fmap list_fmap concat]. rewrite run_app.
    change (AtLock <$> ps :: rest) with (AtLock ps :: (AtLock <$> rest)).
    rewrite thread_run_is_get. cbn [get_all].
    destruct (get ps p) as [r p'|p'] eqn:E.
    + rewrite cons_middle, app_assoc.
      specialize (IH (pre ++ [Done r]) p'). cbn zeta in IH.
      rewrite length_app in IH. cbn [length] in IH.
      replace (length pre + 1)%nat with (S (length pre)) in IH by lia.
      destruct IH as (Hp & Hab & Hth & Hpre).
      split; [|split; [|split]].
      * rewrite Hp, last_cons. by destruct (last (get_all rest p')).
      * rewrite Hab, last_cons. destruct (last (get_all rest p')); [done|].
        split; intros (q & [=]).
      * intros [|i] r' q Hi; simpl in Hi.
        -- inversion Hi; subst r' q. rewrite Nat.add_0_r.
           apply Hpre. rewrite lookup_app_r by lia.
           by rewrite Nat.sub_diag.
        -- replace (length pre + S i)%nat with (S (length pre) + i)%nat
             by lia.
           by eapply Hth.
      * intros i c Hi. apply Hpre. by apply lookup_app_l_Some.
    + rewrite run_aborted by done. simpl.
      split; [done|]. split; [split; eauto|].
      split.
      * intros [|i] r q Hi; simpl in Hi; [discriminate|].
        by rewrite lookup_nil in Hi.
      * intros i c Hi. by apply lookup_app_l_Some.
Qed.

(** Letting the threads run one after another is the sequential program:
    under that schedule the machine ends with the process that the
    successive calls of [get] produce, each thread holds the pointer its call
    returned, and the machine has aborted exactly when the sequence of calls
    ends in an abort. *)
Theorem one_after_another_is_get_all (calls : list Parameters) :
  let m := run (one_after_another (length calls)) (init calls) in
  let outs := get_all calls start in
  process m = default start (process_of <$> last outs) ∧
  (aborted m = true ↔ ∃ q, last outs = Some (Aborted q)) ∧
  (∀ i r q, outs !! i = Some (Returned r q) →
            threads m !! i = Some (Done r)).
Proof.
  destruct (run_in_turn [] calls start) as (Hp & Hab & Hth & _).
  cbn zeta. split; [exact Hp|]. split; [exact Hab|]. exact Hth.
Qed.

End machine_further.

(** ** The configuration: flags, failures and what is left untouched *)

Section config_further.
Import config.
Context `{!World}.

Ltac run_monad :=
  unfold mbind, M_bind, bind, call, say, receiver, with_MesosAgent, with_Node,
    log_if_error, ret, panic, os_Exit in *.

Ltac split_run H :=
  repeat first
    [ discriminate H
    | match type of H with
      | context [match ?x with _ => _ end] =>
          lazymatch x with
          | context [match _ with _ => _ end] => fail
          | _ => idtac
          end;
          let E := fresh "E" in destruct x eqn:E; simpl in H
      end ].

Ltac split_goal :=
  repeat first
    [ progress simpl
    | match goal with
      | |- context [match ?x with _ => _ end] =>
          lazymatch x with
          | context [match _ with _ => _ end] => fail
          | _ => idtac
          end;
          let E := fresh "E" in destruct x eqn:E
      end ].

Lemma setFlags_sets (f : FlagField) (v : FieldValue) (s : FlagSetting)
    (c : Config) :
  flag_setting f v = Some s → field f (setFlags s c) = v.
Proof.
  destruct f, v; simpl; intros [= <-]; simpl; repeat case_decide; done.
Qed.

Lemma setFlags_other (f : FlagField) (s : FlagSetting) (c : Config) :
  (∀ v, flag_setting f v ≠ Some s) → field f (setFlags s c) = field f c.
Proof.
  intros Hn. destruct s as [name value|name value]; simpl;
    repeat case_decide; subst; destruct f; simpl; try done.
  - by destruct (Hn (StringValue value)).
  - by destruct (Hn (StringValue value)).
  - by destruct (Hn (StringValue value)).
  - by destruct (Hn (BoolValue value)).
Qed.

Lemma foldl_setFlags_other (f : FlagField) (settings : list FlagSetting)
    (c : Config) :
  (∀ v s, flag_setting f v = Some s → s ∉ settings) →
  field f (foldl (λ c s, setFlags s c) c settings) = field f c.
Proof.
  revert c. induction settings as [|s rest IH]; intros c Hn; simpl; [done|].
  rewrite IH.
  - apply setFlags_other. intros v Hv. eapply Hn; [exact Hv|]. by left.
  - intros v s' Hv Hin. eapply Hn; [exact Hv|]. by right.
Qed.

Lemma foldl_setFlags_frame (settings : list FlagSetting) (c : Config) :
  let c' := foldl (λ c s, setFlags s c) c settings in
  Collector c' = Collector c ∧ Producers c' = Producers c ∧
  IAMConfigPath c' = IAMConfigPath c ∧
  CACertificatePath c' = CACertificatePath c ∧
  MesosID c' = MesosID c ∧ IPAddress c' = IPAddress c ∧
  ClusterID c' = ClusterID c.
Proof.
  revert c. induction settings as [|s rest IH]; intros c; simpl; [done|].
  destruct (IH (setFlags s c)) as (H1 & H2 & H3 & H4 & H5 & H6 & H7).
  rewrite H1, H2, H3, H4, H5, H6, H7.
  destruct s as [name value|name value]; simpl; repeat case_decide; done.
Qed.

(** The command line reaches four fields and no other: after the flags the
    collectors, the producers, the two paths to the IAM configuration and
    the CA certificate and the three node fields are those of [newConfig]; a
    flag-bound field no setting names keeps its default; and a field named
    several times holds the value of the last setting. *)
Theorem flags_touch_only_their_fields (settings : list FlagSetting) :
  (Collector (after_flags settings) = Collector newConfig ∧
   Producers (after_flags settings) = Producers newConfig ∧
   IAMConfigPath (after_flags settings) = ""%string ∧
   CACertificatePath (after_flags settings) = ""%string ∧
   MesosID (after_flags settings) = ""%string ∧
   IPAddress (after_flags settings) = ""%string ∧
   ClusterID (after_flags settings) = ""%string) ∧
  (∀ f, (∀ v s, flag_setting f v = Some s → s ∉ settings) →
        field f (after_flags settings) = field f newConfig) ∧
  (∀ f v s pre post,
     settings = pre ++ s :: post →
     flag_setting f v = Some s →
     (∀ v' s', flag_setting f v' = Some s' → s' ∉ post) →
     field f (after_flags settings) = v).
Proof.
  split; [|split].
  - apply (foldl_setFlags_frame settings newConfig).
  - intros f Hn. by apply foldl_setFlags_other.
  - intros f v s pre post -> Hs Hpost. unfold after_flags.
    rewrite foldl_app. simpl. rewrite foldl_setFlags_other by done.
    by apply setFlags_sets.
Qed.

(** The other half of the precedence: a flag-bound field that the file does
    not mention holds, in the configuration [getNewConfig] returns, what the
    flags left there (the flag's value, or the default when the flag is
    absent too). *)
Theorem flag_value_kept_when_file_is_silent
    (args : list string) (st st' : St) (settings : list FlagSetting)
    (fileByte : list Z) (w1 : W) (doc : YamlDoc) (uerr : error)
    (f : FlagField) (c : Config) (err : error) :
  Parse args = (settings, ParseOk) →
  ReadFile (ConfigPath (after_flags settings)) (world st)
    = ((fileByte, None), w1) →
  Unmarshal fileByte = (doc, uerr) →
  yaml_entry f doc = None →
  getNewConfig args st = Ret (c, err) st' →
  field f c = field f (after_flags settings).
Proof.
  intros EP ER EU Hv Hrun.
  rewrite (getNewConfig_after_load _ _ _ _ _ _ _ _ _ _ f EP ER EU Hrun).
  by apply unmarshal_into_no_entry.
Qed.

(** [getNewConfig] stops at the first failure of its configuration file.
    An unreadable file returns the configuration as the flags left it, with
    the read error; a YAML error returns the configuration with what was
    decoded, with the decoding error.  In both cases the world has seen the
    read and nothing else, and nothing is logged: the node is never
    asked. *)
Theorem getNewConfig_stops_at_first_failure
    (args : list string) (st : St) (settings : list FlagSetting) :
  (∀ fileByte e w1,
     Parse args = (settings, ParseOk) →
     ReadFile (ConfigPath (after_flags settings)) (world st)
       = ((fileByte, Some e), w1) →
     getNewConfig args st =
       Ret (after_flags settings, Some e) (mkSt w1 (journal st))) ∧
  (∀ fileByte w1 doc e,
     Parse args = (settings, ParseOk) →
     ReadFile (ConfigPath (after_flags settings)) (world st)
       = ((fileByte, None), w1) →
     Unmarshal fileByte = (doc, Some e) →
     getNewConfig args st =
       Ret (unmarshal_into doc (after_flags settings), Some e)
         (mkSt w1 (journal st))).
Proof.
  split.
  - intros fileByte e w1 EP ER. unfold getNewConfig. rewrite EP.
    fold (after_flags settings). unfold loadConfig. run_monad.
    rewrite ER. reflexivity.
  - intros fileByte w1 doc e EP ER EU. unfold getNewConfig. rewrite EP.
    fold (after_flags settings).
    unfold mbind at 1, M_bind at 1, bind at 1.
    rewrite (loadConfig_read _ _ _ _ _ _ ER EU). reflexivity.
Qed.

(** The two shapes of a configuration [getNodeInfo] returns: untouched,
    with an error; or with the node information written. *)
Lemma getNodeInfo_returned_shape (c c' : Config) (err : error) (st st' : St) :
  getNodeInfo c st = Ret (c', err) st' →
  (c' = c ∧ is_Some err) ∨
  (∃ n a ip mid,
     Node (Collector c) = Some n ∧ MesosAgent (Collector c) = Some a ∧
     ((c' = node_info_written ip mid n a c ∧ err = None ∧
       DCOSRole c ≠ RoleMaster) ∨
      (∃ cid, c' = cluster_id_written ip mid cid n a c ∧
              DCOSRole c = RoleMaster))).
Proof.
  intros Hrun. unfold getNodeInfo in Hrun. run_monad. simpl in Hrun.
  split_run Hrun; inversion Hrun; subst;
    first
      [ by (left; eauto)
      | right; eexists _, _, _, _; (split; [reflexivity|]);
        (split; [reflexivity|]);
        first [ left; split; [reflexivity|]; split; [reflexivity|assumption]
              | right; eexists; split; [reflexivity|assumption] ] ].
Qed.

(** [getNodeInfo] writes node information and nothing else: every
    top-level field, the profiler switch, the poll periods, the agent port
    and the HTTP client are as before, the agent's cluster identifier is
    never written, and the node's only on a master. *)
Theorem getNodeInfo_changes_only_node_info
    (c c' : Config) (err : error) (st st' : St) :
  getNodeInfo c st = Ret (c', err) st' →
  (Producers c' = Producers c ∧ IAMConfigPath c' = IAMConfigPath c ∧
   CACertificatePath c' = CACertificatePath c ∧
   VersionFlag c' = VersionFlag c ∧ MesosID c' = MesosID c ∧
   IPAddress c' = IPAddress c ∧ ClusterID c' = ClusterID c ∧
   DCOSRole c' = DCOSRole c ∧ ConfigPath c' = ConfigPath c ∧
   LogLevel c' = LogLevel c) ∧
  HTTPProfiler (Collector c') = HTTPProfiler (Collector c) ∧
  node.PollPeriod <$> Node (Collector c') =
    node.PollPeriod <$> Node (Collector c) ∧
  mesos_agent.PollPeriod <$> MesosAgent (Collector c') =
    mesos_agent.PollPeriod <$> MesosAgent (Collector c) ∧
  mesos_agent.Port <$> MesosAgent (Collector c') =
    mesos_agent.Port <$> MesosAgent (Collector c) ∧
  mesos_agent.HTTPClient <$> MesosAgent (Collector c') =
    mesos_agent.HTTPClient <$> MesosAgent (Collector c) ∧
  (λ a, dcos.ClusterID (mesos_agent.NodeInfo a)) <$> MesosAgent (Collector c') =
    (λ a, dcos.ClusterID (mesos_agent.NodeInfo a)) <$> MesosAgent (Collector c) ∧
  (DCOSRole c ≠ RoleMaster →
   (λ n, dcos.ClusterID (node.NodeInfo n)) <$> Node (Collector c') =
     (λ n, dcos.ClusterID (node.NodeInfo n)) <$> Node (Collector c)).
Proof.
  intros Hrun.
  destruct (getNodeInfo_returned_shape _ _ _ _ _ Hrun)
    as [[-> _]|(n & a & ip & mid & Hn & Ha & [(-> & _ & _)|(cid & -> & Hm)])];
    [done| |]; simpl; rewrite Hn, Ha; simpl; repeat split; try done.
Qed.

(** After [getNodeInfo] has returned without error both collectors are set
    and carry the same address and the same Mesos identifier. *)
Theorem getNodeInfo_collectors_agree (c c' : Config) (st st' : St) :
  getNodeInfo c st = Ret (c', None) st' →
  ∃ n a,
    Node (Collector c') = Some n ∧ MesosAgent (Collector c') = Some a ∧
    dcos.IPAddress (node.NodeInfo n) = dcos.IPAddress (mesos_agent.NodeInfo a) ∧
    dcos.MesosID (node.NodeInfo n) = dcos.MesosID (mesos_agent.NodeInfo a).
Proof.
  intros Hrun.
  destruct (getNodeInfo_returned_shape _ _ _ _ _ Hrun)
    as [[_ [e [=]]]|(n & a & ip & mid & Hn & Ha &
                     [(-> & _ & _)|(cid & -> & Hm)])];
    simpl; eexists _, _; repeat split.
Qed.

(** [getNodeInfo] panics exactly when, with a client at hand, [NewNodeInfo]
    hands back nil or one of the two collector pointers is nil; and it never
    ends the process. *)
Theorem getNodeInfo_panics_exactly_on_nil (c : Config) (st : St) :
  ((∃ st', getNodeInfo c st = Panicked st') ↔
   ∃ client w1 h herr w2,
     NewMetricsClient (CACertificatePath c) (IAMConfigPath c) (world st)
       = ((client, None), w1) ∧
     NewNodeInfo client (stateURL c) w1 = ((h, herr), w2) ∧
     (h = None ∨ MesosAgent (Collector c) = None ∨
      Node (Collector c) = None)) ∧
  (∀ code st', getNodeInfo c st ≠ Exited code st').
Proof.
  split; [split|].
  - intros [st' Hrun]. unfold getNodeInfo in Hrun. run_monad. simpl in Hrun.
    split_run Hrun; eauto 12.
  - intros (client & w1 & h & herr & w2 & E1 & E2 & Hnil).
    unfold getNodeInfo. run_monad. simpl. rewrite E1. simpl. rewrite E2.
    destruct Hnil as [->|[Ha|Hn]].
    + destruct herr; simpl; eauto.
    + split_goal; eauto; congruence.
    + split_goal; eauto; congruence.
  - intros code st' Hrun. unfold getNodeInfo in Hrun. run_monad.
    simpl in Hrun. split_run Hrun.
Qed.

Lemma loadConfig_returns (c : Config) (st : St) :
  ∃ c' err w, loadConfig c st = Ret (c', err) (mkSt w (journal st)).
Proof.
  unfold loadConfig. run_monad.
  destruct (ReadFile (ConfigPath c) (world st)) as [[fileByte [e|]] w1];
    simpl; [eauto|].
  destruct (Unmarshal fileByte) as [doc [e|]]; eauto.
Qed.

(** When [getNewConfig] succeeds both collectors are set and agree on the
    address and the Mesos identifier, and the agent collector holds the
    client that [NewMetricsClient] built, last of all, from the certificate
    and IAM paths of the returned configuration. *)
Theorem getNewConfig_success_installs_client
    (args : list string) (st st' : St) (c : Config) :
  getNewConfig args st = Ret (c, None) st' →
  ∃ n a w,
    Node (Collector c) = Some n ∧ MesosAgent (Collector c) = Some a ∧
    NewMetricsClient (CACertificatePath c) (IAMConfigPath c) w
      = ((mesos_agent.HTTPClient a, None), world st') ∧
    dcos.IPAddress (node.NodeInfo n) = dcos.IPAddress (mesos_agent.NodeInfo a) ∧
    dcos.MesosID (node.NodeInfo n) = dcos.MesosID (mesos_agent.NodeInfo a).
Proof.
  intros Hrun. unfold getNewConfig in Hrun.
  destruct (Parse args) as [settings status].
  destruct status; run_monad; simpl in Hrun; [|discriminate|discriminate].
  split_run Hrun. inversion Hrun; subst. simpl.
  match goal with
  | HN : getNodeInfo _ _ = Ret (?c2, None) ?st2 |- _ =>
      destruct (getNodeInfo_returned_shape _ _ _ _ _ HN)
        as [[_ [e [=]]]|(n & a & ip & mid & Hn & Ha &
                         [(-> & _ & _)|(cid & -> & Hm)])]
  end;
    simpl in *; simplify_eq;
    eexists _, _, _; (split; [reflexivity|]); (split; [reflexivity|]);
    (split; [eassumption|]); split; reflexivity.
Qed.

(** The two ways [getNewConfig] does not return.  It ends the process
    exactly when flag parsing does, before anything else has happened; and
    it panics only inside [getNodeInfo], run on the loaded configuration:
    loading never panics, and once [getNodeInfo] has returned without error
    the agent collector is set, so the final write of the client cannot
    fail. *)
Theorem getNewConfig_abnormal_ends (args : list string) (st : St) :
  (∀ code st',
     getNewConfig args st = Exited code st' ↔
     (Parse args).2 = ParseExit code ∧ st' = st) ∧
  (∀ st',
     getNewConfig args st = Panicked st' →
     ∃ settings c1 st1,
       Parse args = (settings, ParseOk) ∧
       loadConfig (after_flags settings) st = Ret (c1, None) st1 ∧
       getNodeInfo c1 st1 = Panicked st').
Proof.
  assert (Hnode : ∀ c1 st1 c2 st2,
            getNodeInfo c1 st1 = Ret (c2, None) st2 →
            MesosAgent (Collector c2) ≠ None).
  { intros c1 st1 c2 st2 HN.
    destruct (getNodeInfo_returned_shape _ _ _ _ _ HN)
      as [[_ [e [=]]]|(n & a & ip & mid & Hn & Ha &
                       [(-> & _ & _)|(cid & -> & Hm)])]; done. }
  assert (Hexit : ∀ c1 st1 code st2, getNodeInfo c1 st1 ≠ Exited code st2).
  { intros c1 st1 code st2 HN. unfold getNodeInfo in HN. run_monad.
    simpl in HN. split_run HN. }
  unfold getNewConfig. destruct (Parse args) as [settings status].
  fold (after_flags settings).
  destruct (loadConfig_returns (after_flags settings) st)
    as (c1 & lerr & w1 & Hload).
  split.
  - intros code st'. simpl. destruct status as [|e|code'].
    + split; [|by intros [[=] _]].
      intros Hrun. exfalso. run_monad. rewrite Hload in Hrun.
      simpl in Hrun. split_run Hrun; eapply Hexit; eassumption.
    + run_monad. split; [discriminate|by intros [[=] _]].
    + unfold os_Exit. split.
      * by intros [= -> ->].
      * by intros [[= ->] ->].
  - intros st' Hrun. destruct status as [|e|code']; [|discriminate..].
    run_monad. rewrite Hload in Hrun. simpl in Hrun.
    split_run Hrun; inversion Hrun; subst;
      first [ exfalso; eapply Hnode; eassumption
            | eexists _, _, _; split; [reflexivity|]; split; eassumption ].
Qed.

End config_further.

(** ** The further properties on concrete inputs *)

Section concrete_further.
Import params stats stats.InputAssignerFactory concurrent.

Lemma only_first_call_can_abort_witness :
  length (get_all (H:=sample_lib)
            [[("listen_port_mode", "range")]; [("listen_port_mode", "bogus")];
             []]%string start) = 3%nat.
Proof.
  apply (proj2 (@only_first_call_can_abort sample_lib
                  [[("listen_port_mode", "range")];
                   [("listen_port_mode", "bogus")]; []]%string start)).
  intros q. discriminate.
Defined.

Lemma first_configuration_wins_witness :
  Forall (λ out, ∃ q, out = Returned (Some 1%nat) q ∧
                      heap q = [SinglePortAssignerImpl
                                  [("listen_port_mode", "single")]%string;
                                InputAssigner 0%nat] ∧
                      resets q = 1%nat)
         (get_all (H:=sample_lib)
            [[("listen_port_mode", "single")];
             [("listen_port_mode", "range")];
             [("listen_port_mode", "bogus")]]%string start).
Proof.
  exact (proj2 (@first_configuration_wins sample_lib start
                  [("listen_port_mode", "single")]%string
                  [[("listen_port_mode", "range")];
                   [("listen_port_mode", "bogus")]]%string
                  _ eq_refl eq_refl)).
Defined.

Lemma get_keeps_objects_witness :
  Forall (λ out, handle_wellformed (process_of out) ∧
                 heap stored_sample `prefix_of` heap (process_of out) ∧
                 ∀ a x, heap stored_sample !! a = Some x →
                        heap (process_of out) !! a = Some x)
         (get_all (H:=sample_lib) [[("listen_port_mode", "range")]; []]%string
            stored_sample).
Proof.
  apply (@get_keeps_objects_and_handle sample_lib).
  intros a [= <-]. exists 0%nat, (EphemeralPortAssignerImpl []).
  repeat split.
Defined.

Lemma get_all_logs_witness :
  omap logged_parameters
    (glog (LOG (INFO_reusing [("listen_port_mode", "range")]%string)
             stored_sample))
  = [[]; [("listen_port_mode", "range")]%string].
Proof.
  exact (proj1 (@get_all_logs_every_call sample_lib
                  [[("listen_port_mode", "range")]]%string stored_sample
                  0%nat _ eq_refl)).
Defined.

Lemma stored_strategy_witness :
  ∃ t ps,
    [[("listen_port_mode", "bogus")]; [("listen_port_mode", "range")];
     []]%string !! t = Some ps ∧
    matching_strategy (configured_mode (H:=sample_lib) ps) ps
      = Some (PortRangeAssignerImpl [("listen_port_mode", "range")]%string).
Proof.
  destruct (@stored_strategy_comes_from_a_caller sample_lib
              [[("listen_port_mode", "bogus")];
               [("listen_port_mode", "range")]; []]%string
              [1; 0; 1; 1; 2; 1; 1; 1; 0; 0; 0; 2; 2; 2]%nat
              1%nat eq_refl)
    as (impl & o & t & ps & Ha & Hi & Hps & Hm & _).
  cbv in Ha. inversion Ha; subst impl.
  cbv in Hi. inversion Hi; subst o.
  exists t, ps. split; [exact Hps|exact Hm].
Defined.

Lemma one_after_another_witness :
  threads (run (H:=sample_lib) (one_after_another 2)
             (init [[("listen_port_mode", "single")]; []]%string)) !! 1%nat
  = Some (Done (Some 1%nat)).
Proof.
  refine (proj2 (proj2 (@one_after_another_is_get_all sample_lib
                          [[("listen_port_mode", "single")]; []]%string))
            1%nat (Some 1%nat) _ eq_refl).
Defined.

End concrete_further.

Section concrete_config_further.
Import config.

Lemma flags_touch_only_their_fields_witness :
  field FieldLogLevel
    (after_flags [SetString "loglevel" "warn"; SetString "role" "agent";
                  SetString "loglevel" "error"; SetBool "version" true])
  = StringValue "error".
Proof.
  apply (proj2 (proj2 (flags_touch_only_their_fields
                         [SetString "loglevel" "warn";
                          SetString "role" "agent";
                          SetString "loglevel" "error";
                          SetBool "version" true]))
           FieldLogLevel (StringValue "error") (SetString "loglevel" "error")
           [SetString "loglevel" "warn"; SetString "role" "agent"]
           [SetBool "version" true] eq_refl eq_refl).
  intros v' s' Hs' Hin. apply list_elem_of_singleton in Hin. subst s'.
  by destruct v'.
Defined.

Lemma flag_value_kept_witness :
  ∃ c err st',
    getNewConfig (H:=sample_world (Some 2%nat) None)
      ["-config"; "site.yaml"; "-role"; "agent"]%string
      (sample_St (Some 2%nat) None [])
      = Ret (c, err) st' ∧
    field FieldDCOSRole c = StringValue "agent".
Proof.
  eexists _, _, _. split; [vm_compute; reflexivity|].
  transitivity (field FieldDCOSRole
                  (after_flags [SetString "config" "site.yaml";
                                SetString "role" "agent"]));
    [|reflexivity].
  eapply (@flag_value_kept_when_file_is_silent
            (sample_world (Some 2%nat) None)
            ["-config"; "site.yaml"; "-role"; "agent"]%string
            (sample_St (Some 2%nat) None []) _ _ [1]%Z tt _ None
            FieldDCOSRole).
  - reflexivity.
  - reflexivity.
  - reflexivity.
  - reflexivity.
  - vm_compute. reflexivity.
Defined.

Lemma getNewConfig_unreadable_file_witness :
  getNewConfig (H:=sample_world (Some 2%nat) None)
    ["-loglevel"; "warn"]%string (sample_St (Some 2%nat) None [])
  = Ret (after_flags [SetString "loglevel" "warn"], Some "no such file"%string)
      (sample_St (Some 2%nat) None []) ∧
  getNewConfig (H:=sample_world_bad_yaml)
    ["-config=site.yaml"; "-loglevel"; "warn"]%string
    (@mkSt sample_world_bad_yaml tt [])
  = Ret (unmarshal_into
           (mkYamlDoc id id None None None None None None None None
              (Some "debug"%string))
           (after_flags [SetString "config" "site.yaml";
                         SetString "loglevel" "warn"]),
         Some "yaml: unmarshal errors"%string)
      (@mkSt sample_world_bad_yaml tt []).
Proof.
  split.
  - exact (proj1 (@getNewConfig_stops_at_first_failure
                    (sample_world (Some 2%nat) None)
                    ["-loglevel"; "warn"]%string
                    (sample_St (Some 2%nat) None [])
                    [SetString "loglevel" "warn"])
             [] "no such file"%string tt eq_refl eq_refl).
  - exact (proj2 (@getNewConfig_stops_at_first_failure
                    sample_world_bad_yaml
                    ["-config=site.yaml"; "-loglevel"; "warn"]%string
                    (@mkSt sample_world_bad_yaml tt [])
                    [SetString "config" "site.yaml";
                     SetString "loglevel" "warn"])
             [1]%Z tt _ "yaml: unmarshal errors"%string
             eq_refl eq_refl eq_refl).
Defined.

Lemma getNodeInfo_changes_only_node_info_witness :
  mesos_agent.Port <$>
    MesosAgent (Collector
      (node_info_written "10.0.0.7" "agent-S1"
         (node.mkNodeCollector 15 (dcos.mkNodeInfo "" "" ""))
         (mesos_agent.mkMesosAgentCollector 15 5051
            (dcos.mkNodeInfo "" "" "") None) newConfig))
  = Some 5051%Z.
Proof.
  exact (proj1 (proj2 (proj2 (proj2 (proj2
           (@getNodeInfo_changes_only_node_info
              (sample_world (Some 2%nat) None) newConfig _ None
              (sample_St (Some 2%nat) None [])
              (sample_St (Some 2%nat) None [log_Debug "Getting node info"])
              eq_refl)))))).
Defined.

Lemma getNodeInfo_collectors_agree_witness :
  ∃ n a,
    Node (Collector
      (node_info_written "10.0.0.7" "agent-S1"
         (node.mkNodeCollector 15 (dcos.mkNodeInfo "" "" ""))
         (mesos_agent.mkMesosAgentCollector 15 5051
            (dcos.mkNodeInfo "" "" "") None) newConfig)) = Some n ∧
    MesosAgent (Collector
      (node_info_written "10.0.0.7" "agent-S1"
         (node.mkNodeCollector 15 (dcos.mkNodeInfo "" "" ""))
         (mesos_agent.mkMesosAgentCollector 15 5051
            (dcos.mkNodeInfo "" "" "") None) newConfig)) = Some a ∧
    dcos.IPAddress (node.NodeInfo n) = dcos.IPAddress (mesos_agent.NodeInfo a) ∧
    dcos.MesosID (node.NodeInfo n) = dcos.MesosID (mesos_agent.NodeInfo a).
Proof.
  exact (@getNodeInfo_collectors_agree (sample_world (Some 2%nat) None)
           newConfig _ (sample_St (Some 2%nat) None [])
           (sample_St (Some 2%nat) None [log_Debug "Getting node info"])
           eq_refl).
Defined.

Lemma getNodeInfo_panics_on_nil_witness :
  ∃ st', getNodeInfo (H:=sample_world (Some 2%nat) None) no_collectors
           (sample_St (Some 2%nat) None []) = Panicked st'.
Proof.
  apply (proj2 (proj1 (@getNodeInfo_panics_exactly_on_nil
                         (sample_world (Some 2%nat) None) no_collectors
                         (sample_St (Some 2%nat) None [])))).
  exists (Some 1%nat), tt, (Some 2%nat), None, tt.
  split; [reflexivity|]. split; [reflexivity|]. right. left. reflexivity.
Defined.

Lemma getNewConfig_success_witness :
  ∃ c st' a,
    getNewConfig (H:=sample_world (Some 2%nat) None)
      ["-config"; "site.yaml"]%string (sample_St (Some 2%nat) None [])
      = Ret (c, None) st' ∧
    MesosAgent (Collector c) = Some a ∧
    mesos_agent.HTTPClient a = Some 1%nat.
Proof.
  edestruct (@getNewConfig_success_installs_client
               (sample_world (Some 2%nat) None)
               ["-config"; "site.yaml"]%string
               (sample_St (Some 2%nat) None []))
    as (n & a & w & Hn & Ha & Hc & _); [vm_compute; reflexivity|].
  eexists _, _, a. split; [vm_compute; reflexivity|].
  split; [exact Ha|]. simpl in Hc. by inversion Hc.
Defined.

Lemma getNewConfig_exit_witness :
  getNewConfig (H:=sample_world (Some 2%nat) None) ["-colour"; "blue"]%string
    (sample_St (Some 2%nat) None [])
  = Exited 2 (sample_St (Some 2%nat) None []).
Proof.
  apply (proj1 (@getNewConfig_abnormal_ends (sample_world (Some 2%nat) None)
                  ["-colour"; "blue"]%string
                  (sample_St (Some 2%nat) None []))).
  split; reflexivity.
Defined.

End concrete_config_further.
